(** * tamr-client: typed REST accessors and the asynchronous operation follower

    A shallow embedding of [tamr_client/dataset/unified.py] and of the
    published-cluster accessors of
    [tamr_unify_client/models/project/mastering.py].

    Python objects live in an explicit store: lists and dicts are mutable
    and are reached through locations, so that aliasing between the JSON
    data handed to [_from_json] and the snapshot it builds can be stated.
    Network traffic is recorded in the world as the list of requests sent. *)

From Stdlib Require Import ZArith String List Lia.
From Stdlib Require Import Floats.SpecFloat.
From stdpp Require Import gmap strings list fin_maps.

Local Open Scope string_scope.
Local Open Scope list_scope.
Set Warnings "-register-all,-clear-no-such-hyp".

(** ** Python values and the object store *)

Module Py.

(** Locations stand for Python's [id(x)] of a mutable object. *)
Abbreviation loc := nat.

(** What [json.loads] can produce: atoms are immutable and carried by
    value, lists and dicts are references into the store. *)
Inductive val : Type :=
  | VNone
  | VBool (b : bool)
  | VInt (z : Z)
  | VFloat (f : spec_float)
  | VStr (s : string)
  | VRef (l : loc).

Inductive hobj : Type :=
  | HList (xs : list val)
  | HDict (kvs : list (string * val)).

Abbreviation heap := (gmap nat hobj).

(** A JSON document as a tree, the body of an HTTP response. *)
Inductive json : Type :=
  | JNull
  | JBool (b : bool)
  | JInt (z : Z)
  | JFloat (f : spec_float)
  | JStr (s : string)
  | JArr (ts : list json)
  | JObj (kts : list (string * json)).

Fixpoint json_size (t : json) : nat :=
  match t with
  | JArr ts => S (list_sum (map json_size ts))
  | JObj kts => S (list_sum (map (fun kt => json_size (snd kt)) kts))
  | _ => 1
  end.

(** Insertion-ordered dict: [d[k] = v] overwrites in place or appends. *)
Fixpoint assoc_set {A} (k : string) (v : A) (kvs : list (string * A)) : list (string * A) :=
  match kvs with
  | [] => [(k, v)]
  | (k', v') :: rest =>
      if String.eqb k k' then (k, v) :: rest else (k', v') :: assoc_set k v rest
  end.

Fixpoint assoc_get {A} (k : string) (kvs : list (string * A)) : option A :=
  match kvs with
  | [] => None
  | (k', v') :: rest => if String.eqb k k' then Some v' else assoc_get k rest
  end.

(** [y.append(a)] on the list object at [y]. *)
Definition list_append (y : loc) (a : val) (h : heap) : heap :=
  match h !! y with
  | Some (HList ys) => <[y := HList (ys ++ [a])]> h
  | _ => h
  end.

(** [y[k] = v] on the dict object at [y]. *)
Definition dict_setitem (y : loc) (k : string) (v : val) (h : heap) : heap :=
  match h !! y with
  | Some (HDict kvs) => <[y := HDict (assoc_set k v kvs)]> h
  | _ => h
  end.

(** The element loops of [_deepcopy_list] and [_deepcopy_dict]: every
    element is copied by [rec] and stored in the copy [y] right away. *)
Section copy_loops.
Context (rec : val -> gmap nat nat -> heap -> option (val * gmap nat nat * heap)).
Context (y : loc).

Fixpoint copy_list_items (xs : list val) (memo : gmap nat nat) (h : heap)
  : option (val * gmap nat nat * heap) :=
  match xs with
  | [] => Some (VRef y, memo, h)
  | a :: xs' =>
      match rec a memo h with
      | Some (a', memo', h') => copy_list_items xs' memo' (list_append y a' h')
      | None => None
      end
  end.

Fixpoint copy_dict_items (kvs : list (string * val)) (memo : gmap nat nat) (h : heap)
  : option (val * gmap nat nat * heap) :=
  match kvs with
  | [] => Some (VRef y, memo, h)
  | (k, a) :: kvs' =>
      match rec a memo h with
      | Some (a', memo', h') => copy_dict_items kvs' memo' (dict_setitem y k a' h')
      | None => None
      end
  end.
End copy_loops.

(** [copy.deepcopy(x, memo)]: atoms are their own copy; a list or dict is
    copied once, the copy being registered in [memo] before its elements
    are copied.  [fuel] bounds the recursion depth; [None] is fuel
    exhaustion or a dangling reference. *)
Fixpoint deepcopy (fuel : nat) (x : val) (memo : gmap nat nat) (h : heap)
  : option (val * gmap nat nat * heap) :=
  match x with
  | VRef l =>
      match memo !! l with
      | Some y => Some (VRef y, memo, h)
      | None =>
          match fuel with
          | O => None
          | S fuel' =>
              let y := fresh (dom h) in
              match h !! l with
              | Some (HList xs) =>
                  copy_list_items (deepcopy fuel') y xs (<[l := y]> memo) (<[y := HList []]> h)
              | Some (HDict kvs) =>
                  copy_dict_items (deepcopy fuel') y kvs (<[l := y]> memo) (<[y := HDict []]> h)
              | None => None
              end
          end
      end
  | _ => Some (x, memo, h)
  end.

(** The element loops of [json.loads] for an array and for an object. *)
Section alloc_loops.
Context (rec : json -> heap -> val * heap).

Fixpoint alloc_items (ts : list json) (h : heap) : list val * heap :=
  match ts with
  | [] => ([], h)
  | t :: ts' =>
      let '(x, h1) := rec t h in
      let '(xs, h2) := alloc_items ts' h1 in
      (x :: xs, h2)
  end.

Fixpoint alloc_entries (kts : list (string * json)) (acc : list (string * val)) (h : heap)
  : list (string * val) * heap :=
  match kts with
  | [] => (acc, h)
  | (k, t) :: kts' =>
      let '(x, h1) := rec t h in
      alloc_entries kts' (assoc_set k x acc) h1
  end.
End alloc_loops.

(** [json.loads]: builds fresh objects for a document.  A repeated key
    keeps its first position and its last value, as a Python dict does. *)
Fixpoint alloc_json (t : json) (h : heap) : val * heap :=
  match t with
  | JNull => (VNone, h)
  | JBool b => (VBool b, h)
  | JInt z => (VInt z, h)
  | JFloat f => (VFloat f, h)
  | JStr s => (VStr s, h)
  | JArr ts =>
      let '(xs, h1) := alloc_items alloc_json ts h in
      let y := fresh (dom h1) in
      (VRef y, <[y := HList xs]> h1)
  | JObj kts =>
      let '(kvs, h1) := alloc_entries alloc_json kts [] h in
      let y := fresh (dom h1) in
      (VRef y, <[y := HDict kvs]> h1)
  end.

(** Pointwise relation of two lists, by recursion on the first. *)
Fixpoint all2 {A B} (R : A -> B -> Prop) (ts : list A) (xs : list B) {struct ts} : Prop :=
  match ts, xs with
  | [], [] => True
  | t :: ts', x :: xs' => R t x /\ all2 R ts' xs'
  | _, _ => False
  end.

(** The document a value stands for in a store.  A dict has distinct
    keys.  The relation is defined by recursion on the document, so a
    value has a document only if the objects under it form a finite
    tree (possibly with shared subtrees). *)
Fixpoint represents (h : heap) (v : val) (t : json) {struct t} : Prop :=
  match t with
  | JNull => v = VNone
  | JBool b => v = VBool b
  | JInt z => v = VInt z
  | JFloat f => v = VFloat f
  | JStr s => v = VStr s
  | JArr ts =>
      exists l xs, v = VRef l /\ h !! l = Some (HList xs) /\
        all2 (fun t x => represents h x t) ts xs
  | JObj kts =>
      exists l kvs, v = VRef l /\ h !! l = Some (HDict kvs) /\
        NoDup (map fst kvs) /\
        all2 (fun kt kv => fst kv = fst kt /\ represents h (snd kv) (snd kt)) kts kvs
  end.

End Py.

(** ** Transport, exceptions and the world *)

Module Net.
Import Py.

Inductive Request : Type :=
  | GET (url : string)
  | POST (url : string) (headers : list (string * string)).

(** [body] is [None] when the payload is not a JSON text. *)
Record Response : Type := { status_code : Z; body : option json }.

(** A request is answered, or the transport itself fails (no response). *)
Inductive Reply : Type :=
  | Replied (r : Response)
  | Failed (reason : string).

(** [Session]: the answer to a request may depend on the requests sent
    before it (the server has state). *)
Record Session : Type := { send : list Request -> Request -> Reply }.

Inductive exn : Type :=
  | NotFound (msg : string)
  | HTTPError (r : Response)
  | ConnectionError (reason : string)
  | JSONDecodeError
  | KeyError (key : string)
  | TypeError
  | AttributeError
  | MalformedResponse
  | FrozenInstanceError.

(** [Stuck] is the model running out of fuel, or a dangling reference. *)
Inductive result (A : Type) : Type :=
  | Ok (a : A)
  | Raise (e : exn)
  | Stuck.
Arguments Ok {A} a.
Arguments Raise {A} e.
Arguments Stuck {A}.

Record World : Type := { store : heap; calls : list Request }.

Definition M (A : Type) : Type := World -> result A * World.

Definition ret {A} (a : A) : M A := fun w => (Ok a, w).
Definition raise {A} (e : exn) : M A := fun w => (Raise e, w).
Definition lift {A} (r : result A) : M A := fun w => (r, w).
Definition bind {A B} (c : M A) (k : A -> M B) : M B :=
  fun w =>
    match c w with
    | (Ok a, w') => k a w'
    | (Raise e, w') => (Raise e, w')
    | (Stuck, w') => (Stuck, w')
    end.

Notation "x <- c ;; k" := (bind c (fun x => k))
  (at level 100, c at next level, right associativity).

(** The world after more requests have been sent. *)
Definition sent (w : World) (reqs : list Request) : World :=
  {| store := store w; calls := calls w ++ reqs |}.

(** [session.get(url)] and [session.post(url, headers=...)]: the request
    is recorded, then answered. *)
Definition request (s : Session) (req : Request) : M Response :=
  fun w =>
    let w' := sent w [req] in
    match send s (calls w) req with
    | Replied r => (Ok r, w')
    | Failed reason => (Raise (ConnectionError reason), w')
    end.

Definition get (s : Session) (url : string) : M Response := request s (GET url).
Definition post (s : Session) (url : string) (headers : list (string * string)) : M Response :=
  request s (POST url headers).

(** [r.json()]: the parsed body, built from fresh objects. *)
Definition json_body (r : Response) : M val :=
  fun w =>
    match body r with
    | None => (Raise JSONDecodeError, w)
    | Some t =>
        let '(v, h) := alloc_json t (store w) in
        (Ok v, {| store := h; calls := calls w |})
    end.

(** [copy.deepcopy(x)] *)
Definition py_deepcopy (fuel : nat) (x : val) : M val :=
  fun w =>
    match deepcopy fuel x ∅ (store w) with
    | Some (x', _, h) => (Ok x', {| store := h; calls := calls w |})
    | None => (Stuck, w)
    end.

(** [d[k]] *)
Definition getitem (d : val) (k : string) : M val :=
  fun w =>
    match d with
    | VRef l =>
        match store w !! l with
        | Some (HDict kvs) =>
            match assoc_get k kvs with
            | Some v => (Ok v, w)
            | None => (Raise (KeyError k), w)
            end
        | Some (HList _) => (Raise TypeError, w)
        | None => (Stuck, w)
        end
    | _ => (Raise TypeError, w)
    end.

(** [d.get(k)] *)
Definition dict_get (d : val) (k : string) : M val :=
  fun w =>
    match d with
    | VRef l =>
        match store w !! l with
        | Some (HDict kvs) =>
            match assoc_get k kvs with
            | Some v => (Ok v, w)
            | None => (Ok VNone, w)
            end
        | Some (HList _) => (Raise AttributeError, w)
        | None => (Stuck, w)
        end
    | _ => (Raise AttributeError, w)
    end.

Fixpoint chars (s : string) : list val :=
  match s with
  | EmptyString => []
  | String c s' => VStr (String c EmptyString) :: chars s'
  end.

(** [tuple(x)]: the elements of a list, the keys of a dict, the
    characters of a string; other atoms are not iterable. *)
Definition py_tuple (x : val) : M (list val) :=
  fun w =>
    match x with
    | VRef l =>
        match store w !! l with
        | Some (HList xs) => (Ok xs, w)
        | Some (HDict kvs) => (Ok (map (fun kv => VStr (fst kv)) kvs), w)
        | None => (Stuck, w)
        end
    | VStr s => (Ok (chars s), w)
    | _ => (Raise TypeError, w)
    end.

End Net.

(** ** [tamr_client.url], [tamr_client.instance], [tamr_client.project]

    These modules are not among the files embedded here.  What a server
    instance is, and how a URL is written out by [str(url)], are taken
    as parameters. *)

Class Addressing : Type := {
  Instance : Type;
  URL_str : Instance -> string -> string
}.

Module url.
Section url.
Context `{Addressing}.
Record URL : Type := { instance : Instance; path : string }.
Definition str (u : URL) : string := URL_str (instance u) (path u).
End url.
End url.

Module project.
Section project.
Context `{Addressing}.
(** Only the field read by [unified.from_project]. *)
Record Project : Type := { url : url.URL }.
End project.
End project.

(** ** [tamr_client.response] *)

Module response.
Import Net.

(** Modelled from the spec: [response.successful] is missing from the
    embedded files.  "404 on a GET against a resource by URL signals a
    not found error kind to the caller; any other non-2xx status signals
    a generic transport error kind": a response outside 200..299 raises
    the transport error carrying it, a 2xx response is returned. *)
Definition successful (r : Response) : M Response :=
  if ((200 <=? status_code r) && (status_code r <? 300))%Z then ret r
  else raise (HTTPError r).

End response.

(** ** [tamr_client.operation] *)

Module operation.
Import Py Net.
Section operation.
Context `{Addressing}.

(** Modelled from the spec: the [Operation] entity of section 3 is
    missing from the embedded files.  It has a [url], a [state] from an
    open enumeration, and the informational [description] and
    [type]. *)
Record Operation : Type := {
  url : url.URL;
  state : string;
  type : option string;
  description : option string
}.

(** Modelled from the spec: the terminal subset
    {SUCCEEDED, FAILED, CANCELED} and the predicate "is terminal",
    derived purely from [state]. *)
Definition terminal_states : list string := ["SUCCEEDED"; "FAILED"; "CANCELED"].

(** Modelled from the spec: "exposes a predicate is terminal derived
    purely from state membership in the terminal set". *)
Definition is_terminal (op : Operation) : bool :=
  existsb (String.eqb (state op)) terminal_states.

(** Modelled from the spec: reading a field of the JSON document; a
    repeated key has its last value, as in a parsed dict. *)
Definition jget (k : string) (kts : list (string * json)) : option json :=
  assoc_get k (rev kts).

(** Modelled from the spec: an "informational metadata" field is
    absent or null, or a string; another type is a mismatched field. *)
Definition optional_str (k : string) (kts : list (string * json)) : result (option string) :=
  match jget k kts with
  | None | Some JNull => Ok None
  | Some (JStr s) => Ok (Some s)
  | Some _ => Raise MalformedResponse
  end.

(** Modelled from the spec: construction of an [Operation] snapshot
    "deserializes from a JSON document containing at least an
    identifier/URL and a state field; fails with a MalformedResponse
    error kind if required fields are absent or of the wrong type".
    Here the URL is known and the document gives the state. *)
Definition _from_json (u : url.URL) (doc : json) : result Operation :=
  match doc with
  | JObj kts =>
      match jget "state" kts with
      | Some (JStr st) =>
          match optional_str "type" kts, optional_str "description" kts with
          | Ok ty, Ok de => Ok {| url := u; state := st; type := ty; description := de |}
          | _, _ => Raise MalformedResponse
          end
      | _ => Raise MalformedResponse
      end
  | _ => Raise MalformedResponse
  end.

(** Modelled from the spec: the document of a response for the strict
    decode step; a body that is not JSON is malformed. *)
Definition document (r : Response) : result json :=
  match body r with
  | Some doc => Ok doc
  | None => Raise MalformedResponse
  end.

(** Modelled from the spec: [operation._from_response] is missing from
    the embedded files.  The answer to the POST of an action is "an
    initial operation JSON document"; the operation's locator is its
    "opaque identifier + instance context", the identifier being the
    string field "id" of the document. *)
Definition _from_response (i : Instance) (r : Response) : M Operation :=
  r' <- response.successful r ;;
  doc <- lift (document r') ;;
  match doc with
  | JObj kts =>
      match jget "id" kts with
      | Some (JStr id) => lift (_from_json {| url.instance := i; url.path := id |} doc)
      | _ => raise MalformedResponse
      end
  | _ => raise MalformedResponse
  end.

(** Modelled from the spec: one poll of the follower, "issue a GET
    against the operation's URL, parse the response into a new
    Operation snapshot".  "If the transport returns HTTP 404 on a
    poll, the follower raises NotFound"; any other non-success status
    is the transport error. *)
Definition poll (s : Session) (op : Operation) : M Operation :=
  r <- get s (url.str (url op)) ;;
  if (status_code r =? 404)%Z then raise (NotFound (url.str (url op)))
  else
    r' <- response.successful r ;;
    doc <- lift (document r') ;;
    lift (_from_json (url op) doc).

(** Modelled from the spec: [operation.wait], the follower, is missing
    from the embedded files.  "The follower performs an unbounded
    loop: if the current snapshot's state is terminal, return it
    immediately; otherwise issue a GET against the operation's URL,
    parse the response into a new Operation snapshot, and wait a fixed
    or configurable interval before the next state check."  An error
    of a poll aborts the loop.  [fuel] bounds the number of polls; the
    waiting time itself is not modelled. *)
Fixpoint wait (fuel : nat) (s : Session) (op : Operation) : M Operation :=
  if is_terminal op then ret op
  else
    match fuel with
    | O => lift Stuck
    | S fuel' => op' <- poll s op ;; wait fuel' s op'
    end.
End operation.
End operation.

(** ** [tamr_client.dataset.unified] *)

Module unified.
Import Py Net.
Section unified.
Context `{Addressing}.

(** [@dataclass(frozen=True) class UnifiedDataset].  The annotations
    ([str], [Tuple[str, ...]], [Optional[str]]) are not enforced at run
    time: a field holds whatever value it is given. *)
Record UnifiedDataset : Type := {
  url : url.URL;
  name : val;
  key_attribute_names : list val;
  description : val
}.

(** A frozen dataclass refuses [d.field = v] and [del d.field]. *)
Definition __setattr__ (d : UnifiedDataset) (field : string) (v : val) : M unit :=
  raise FrozenInstanceError.

Definition __delattr__ (d : UnifiedDataset) (field : string) : M unit :=
  raise FrozenInstanceError.

Definition _from_json (fuel : nat) (u : url.URL) (data : val) : M UnifiedDataset :=
  cp <- py_deepcopy fuel data ;;
  name <- getitem cp "name" ;;
  description <- dict_get cp "description" ;;
  kan <- getitem cp "keyAttributeNames" ;;
  key_attribute_names <- py_tuple kan ;;
  ret {| url := u; name := name;
         key_attribute_names := key_attribute_names;
         description := description |}.

Definition _from_url (fuel : nat) (session : Session) (u : url.URL) : M UnifiedDataset :=
  r <- get session (url.str u) ;;
  if (status_code r =? 404)%Z then raise (NotFound (url.str u))
  else
    r' <- response.successful r ;;
    data <- json_body r' ;;
    _from_json fuel u data.

Definition from_project (fuel : nat) (session : Session) (instance : Instance)
    (p : project.Project) : M UnifiedDataset :=
  let u := {| url.instance := instance;
              url.path := url.path (project.url p) +:+ "/unifiedDataset" |} in
  _from_url fuel session u.

Definition _apply_changes_async (session : Session) (unified_dataset : UnifiedDataset)
    : M operation.Operation :=
  r <- post session (url.str (url unified_dataset) +:+ ":refresh")
         [("Content-Type", "application/json"); ("Accept", "application/json")] ;;
  operation._from_response (url.instance (url unified_dataset)) r.

Definition apply_changes (fuel : nat) (session : Session) (unified_dataset : UnifiedDataset)
    : M operation.Operation :=
  op <- _apply_changes_async session unified_dataset ;;
  operation.wait fuel session op.
End unified.
End unified.

(** ** [tamr_unify_client.models.project.mastering] *)

Module mastering.

(** The classes [Dataset], [Project] and the client's dataset collection
    are not among the files embedded here: what the accessors use of them
    is taken as parameters.  [by_name] and [unified_dataset] ask the
    server and may fail. *)
Class Unify : Type := {
  Dataset : Type;
  JsonDict : Type;
  Err : Type;
  Dataset_name : Dataset -> string;
  Dataset_data : Dataset -> JsonDict;
  Dataset_from_json : JsonDict -> string -> Dataset;
  by_name : string -> Err + Dataset
}.

Section mastering.
Context `{Unify}.

(** [self.api_path], and the answer of the inherited
    [self.unified_dataset()]. *)
Record MasteringProject : Type := {
  api_path : string;
  unified_dataset : Err + Dataset
}.

(** The state is the list of names looked up with
    [client.datasets.by_name], oldest first. *)
Definition M (A : Type) : Type := list string -> (Err + A) * list string.

Definition ret {A} (a : A) : M A := fun log => (inr a, log).
Definition lift {A} (r : Err + A) : M A := fun log => (r, log).
Definition bind {A B} (c : M A) (k : A -> M B) : M B :=
  fun log =>
    match c log with
    | (inr a, log') => k a log'
    | (inl e, log') => (inl e, log')
    end.

Definition datasets_by_name (n : string) : M Dataset :=
  fun log => (by_name n, log ++ [n]).

Definition published_clusters (self : MasteringProject) : M Dataset :=
  bind (lift (unified_dataset self)) (fun ud =>
  let name := Dataset_name ud +:+ "_dedup_published_clusters" in
  bind (datasets_by_name name) (fun canonical =>
  let resource_json := Dataset_data canonical in
  let alias := api_path self +:+ "/publishedClusters" in
  ret (Dataset_from_json resource_json alias))).

Definition record_clusters_with_data (self : MasteringProject) : M Dataset :=
  bind (lift (unified_dataset self)) (fun ud =>
  let name := Dataset_name ud +:+ "_dedup_clusters_with_data" in
  datasets_by_name name).

Definition published_clusters_with_data (self : MasteringProject) : M Dataset :=
  bind (lift (unified_dataset self)) (fun ud =>
  let name := Dataset_name ud +:+ "_dedup_published_clusters_with_data" in
  datasets_by_name name).
End mastering.
End mastering.

(** *** The sub-resource accessors of a mastering project *)

Module mastering_resources.
Import mastering.

(** The resource classes and the client are not among the files
    embedded here: their constructors and the two requests are taken as
    parameters.  [client_get alias] is
    [self.client.get(alias).successful().json()], [client_post] the same
    with [post]; [apply_options] is the method [op.apply_options], given
    the keyword options. *)
Class Resources `{Unify} : Type := {
  MachineLearningModel : Type;
  BinningModel : Type;
  PublishedClustersConfiguration : Type;
  EstimatedPairCounts : Type;
  Operation : Type;
  Options : Type;
  Dataset_init : option JsonDict -> string -> Dataset;
  MachineLearningModel_init : option JsonDict -> string -> MachineLearningModel;
  BinningModel_from_json : Py.json -> string -> BinningModel;
  PublishedClustersConfiguration_from_json :
    JsonDict -> string -> PublishedClustersConfiguration;
  EstimatedPairCounts_from_json : JsonDict -> string -> EstimatedPairCounts;
  Operation_from_json : JsonDict -> Operation;
  apply_options : Operation -> Options -> Err + Operation;
  client_get : string -> Err + JsonDict;
  client_post : string -> Err + JsonDict
}.

Section resources.
Context `{Resources}.

(** The local [alias] (or [path]) of each method. *)
Definition pairs_alias (self : MasteringProject) : string :=
  api_path self +:+ "/recordPairs".
Definition pair_matching_model_alias (self : MasteringProject) : string :=
  api_path self +:+ "/recordPairsWithPredictions/model".
Definition high_impact_pairs_alias (self : MasteringProject) : string :=
  api_path self +:+ "/highImpactPairs".
Definition record_clusters_alias (self : MasteringProject) : string :=
  api_path self +:+ "/recordClusters".
Definition published_clusters_alias (self : MasteringProject) : string :=
  api_path self +:+ "/publishedClusters".
Definition published_clusters_configuration_alias (self : MasteringProject) : string :=
  api_path self +:+ "/publishedClustersConfiguration".
Definition refresh_published_cluster_ids_path (self : MasteringProject) : string :=
  api_path self +:+ "/allPublishedClusterIds:refresh".
Definition estimate_pairs_alias (self : MasteringProject) : string :=
  api_path self +:+ "/estimatedPairCounts".
Definition binning_model_alias (self : MasteringProject) : string :=
  api_path self +:+ "/binningModel".

Definition pairs (self : MasteringProject) : Dataset :=
  Dataset_init None (pairs_alias self).

Definition pair_matching_model (self : MasteringProject) : MachineLearningModel :=
  MachineLearningModel_init None (pair_matching_model_alias self).

Definition high_impact_pairs (self : MasteringProject) : Dataset :=
  Dataset_init None (high_impact_pairs_alias self).

Definition record_clusters (self : MasteringProject) : Dataset :=
  Dataset_init None (record_clusters_alias self).

Definition published_clusters_configuration (self : MasteringProject)
    : Err + PublishedClustersConfiguration :=
  let alias := published_clusters_configuration_alias self in
  match client_get alias with
  | inr resource_json => inr (PublishedClustersConfiguration_from_json resource_json alias)
  | inl e => inl e
  end.

Definition refresh_published_cluster_ids (self : MasteringProject) (options : Options)
    : Err + Operation :=
  let path := refresh_published_cluster_ids_path self in
  match client_post path with
  | inr op_json => apply_options (Operation_from_json op_json) options
  | inl e => inl e
  end.

Definition estimate_pairs (self : MasteringProject) : Err + EstimatedPairCounts :=
  let alias := estimate_pairs_alias self in
  match client_get alias with
  | inr estimate_json => inr (EstimatedPairCounts_from_json estimate_json alias)
  | inl e => inl e
  end.

(** "Cannot get this resource and so we hard code". *)
Definition binning_model (self : MasteringProject) : BinningModel :=
  let alias := binning_model_alias self in
  let resource_json := Py.JObj [("relativeId", Py.JStr alias)] in
  BinningModel_from_json resource_json alias.

(** The paths used by the nine accessors, in the order of the class. *)
Definition resource_paths (self : MasteringProject) : list string :=
  [ pairs_alias self; pair_matching_model_alias self; high_impact_pairs_alias self;
    record_clusters_alias self; published_clusters_alias self;
    published_clusters_configuration_alias self; refresh_published_cluster_ids_path self;
    estimate_pairs_alias self; binning_model_alias self ].
End resources.
End mastering_resources.



(** ** Concrete data used in examples *)

Module Demo.
Import Py Net.

Definition addressing : Addressing :=
  {| Instance := string; URL_str := fun i p => i +:+ "/" +:+ p |}.

Definition dataset_url : @url.URL addressing :=
  @url.Build_URL addressing "https://tamr.example" "datasets/7".

(** [{"name": "customers", "keyAttributeNames": ["id"]}], the dict at
    location 0. *)
Definition doc_ok : list (string * json) :=
  [("name", JStr "customers"); ("keyAttributeNames", JArr [JStr "id"])].

Definition world_ok : World :=
  {| store := <[0 := HDict [("name", VStr "customers"); ("keyAttributeNames", VRef 1)]]>
                (<[1 := HList [VStr "id"]]> ∅);
     calls := [] |}.

(** [{"keyAttributeNames": ["id"]}]: the required "name" is absent. *)
Definition doc_no_name : list (string * json) :=
  [("keyAttributeNames", JArr [JStr "id"])].

Definition world_no_name : World :=
  {| store := <[0 := HDict [("keyAttributeNames", VRef 1)]]> (<[1 := HList [VStr "id"]]> ∅);
     calls := [] |}.

(** [{"name": 5, "keyAttributeNames": "ab"}]: both required fields have
    another type than annotated. *)
Definition doc_ill_typed : list (string * json) :=
  [("name", JInt 5); ("keyAttributeNames", JStr "ab")].

Definition world_ill_typed : World :=
  {| store := <[0 := HDict [("name", VInt 5); ("keyAttributeNames", VStr "ab")]]> ∅;
     calls := [] |}.

(** An operation of the server, and a server that answers the k-th
    request it receives with the k-th reply of a script. *)
Definition op_url : @url.URL addressing :=
  @url.Build_URL addressing "https://tamr.example" "operations/12".

Definition snapshot (st : string) : @operation.Operation addressing :=
  @operation.Build_Operation addressing op_url st None None.

Definition reply (code : Z) (st : string) : Response :=
  {| status_code := code; body := Some (JObj [("state", JStr st)]) |}.

Definition scripted (replies : list Response) : Session :=
  {| send := fun hist _ =>
       match nth_error replies (length hist) with
       | Some r => Replied r
       | None => Failed "connection reset"
       end |}.

Definition idle : World := {| store := ∅; calls := [] |}.

(** The answer to the POST of an action: the created operation. *)
Definition created (st : string) : Response :=
  {| status_code := 200;
     body := Some (JObj [("id", JStr "operations/12"); ("state", JStr st)]) |}.

Definition customers : @unified.UnifiedDataset addressing :=
  @unified.Build_UnifiedDataset addressing dataset_url (VStr "customers") [VStr "id"] VNone.

(** A client of the older API whose datasets are known by their names. *)
Definition unify : mastering.Unify :=
  {| mastering.Dataset := string * string;
     mastering.JsonDict := string;
     mastering.Err := string;
     mastering.Dataset_name := fst;
     mastering.Dataset_data := fst;
     mastering.Dataset_from_json := fun data alias => (data, alias);
     mastering.by_name := fun n => inr (n, "datasets/" +:+ n) |}.

End Demo.

Module PyFacts.
Import Py.

Lemma json_ind' (P : json -> Prop) :
  P JNull -> (forall b, P (JBool b)) -> (forall z, P (JInt z)) ->
  (forall f, P (JFloat f)) -> (forall s, P (JStr s)) ->
  (forall ts, Forall P ts -> P (JArr ts)) ->
  (forall kts, Forall (fun kt => P (snd kt)) kts -> P (JObj kts)) ->
  forall t, P t.
Proof.
  intros Hn Hb Hz Hf Hs Ha Ho.
  fix IH 1. intros [| b | z | f | s | ts | kts].
  - exact Hn.
  - apply Hb.
  - apply Hz.
  - apply Hf.
  - apply Hs.
  - apply Ha. induction ts as [| t ts IHts]; constructor; [apply IH | exact IHts].
  - apply Ho. induction kts as [| [k t] kts IHkts]; constructor; [apply IH | exact IHkts].
Qed.

Lemma all2_Forall2 {A B} (R : A -> B -> Prop) ts xs :
  all2 R ts xs <-> Forall2 (fun x t => R t x) xs ts.
Proof.
  split.
  - revert xs. induction ts as [| t ts IH]; intros [| x xs] H; simpl in H;
      first [contradiction | constructor; [tauto | apply IH; tauto] | constructor].
  - induction 1; simpl; auto.
Qed.

(** The list and dict clauses of [represents], with [Forall2]. *)
Definition entry_rep (h : heap) (kv : string * val) (kt : string * json) : Prop :=
  fst kv = fst kt /\ represents h (snd kv) (snd kt).

Lemma represents_arr h v ts :
  represents h v (JArr ts) <->
  exists l xs, v = VRef l /\ h !! l = Some (HList xs) /\ Forall2 (represents h) xs ts.
Proof.
  simpl. split; intros (l & xs & -> & Hl & H); exists l, xs;
    (split; [done | split; [done |]]); by apply all2_Forall2.
Qed.

Lemma represents_obj h v kts :
  represents h v (JObj kts) <->
  exists l kvs, v = VRef l /\ h !! l = Some (HDict kvs) /\ NoDup (map fst kvs) /\
    Forall2 (entry_rep h) kvs kts.
Proof.
  simpl. split; intros (l & kvs & -> & Hl & Hnd & H); exists l, kvs;
    (split; [done | split; [done | split; [done |]]]); by apply all2_Forall2.
Qed.

Lemma represents_atom h h' v t :
  (forall l, v <> VRef l) -> represents h v t -> represents h' v t.
Proof.
  intros Hv. destruct t; simpl; try done.
  - intros (l & ? & -> & _). by destruct (Hv l).
  - intros (l & ? & -> & _). by destruct (Hv l).
Qed.

Lemma represents_mono h h' v t :
  h ⊆ h' -> represents h v t -> represents h' v t.
Proof.
  intros Hsub. revert v.
  induction t as [| | | | | ts IH | kts IH] using json_ind'; intros v; try done.
  - rewrite !represents_arr. intros (l & xs & -> & Hl & H).
    exists l, xs. split; [done |]. split; [by eapply lookup_weaken |].
    clear Hl. induction H as [| x t xs ts H1 _ IH2]; [constructor |].
    inversion IH; subst. constructor; auto.
  - rewrite !represents_obj. intros (l & kvs & -> & Hl & Hnd & H).
    exists l, kvs. split; [done |]. split; [by eapply lookup_weaken |]. split; [done |].
    clear Hl Hnd. induction H as [| kv kt kvs kts [H0 H1] _ IH2]; [constructor |].
    inversion IH; subst. constructor; [split; auto | auto].
Qed.

Lemma represents_fun h v t1 t2 :
  represents h v t1 -> represents h v t2 -> t1 = t2.
Proof.
  revert v t2.
  induction t1 as [| | | | | ts IH | kts IH] using json_ind'; intros v t2 H1 H2.
  1-5: simpl in H1; subst v; destruct t2; simpl in H2;
    first [congruence | by destruct H2 as (? & ? & ? & _)].
  - apply represents_arr in H1 as (l & xs & -> & Hl & H).
    destruct t2 as [| | | | | ts2 | kts2]; try done.
    + apply represents_arr in H2 as (l2 & xs2 & [= <-] & Hl2 & H2).
      rewrite Hl in Hl2. injection Hl2 as <-. f_equal. clear Hl.
      revert ts2 H2. induction H as [| x t xs ts Hx _ IH2]; intros ts2 H2.
      * by inversion H2.
      * inversion H2 as [| ? t' ? ts' Hx' Hxs']; subst. inversion IH; subst.
        f_equal; eauto.
    + apply represents_obj in H2 as (l2 & kvs2 & [= <-] & Hl2 & _).
      rewrite Hl in Hl2. done.
  - apply represents_obj in H1 as (l & kvs & -> & Hl & _ & H).
    destruct t2 as [| | | | | ts2 | kts2]; try done.
    + apply represents_arr in H2 as (l2 & xs2 & [= <-] & Hl2 & _).
      rewrite Hl in Hl2. done.
    + apply represents_obj in H2 as (l2 & kvs2 & [= <-] & Hl2 & _ & H2).
      rewrite Hl in Hl2. injection Hl2 as <-. f_equal. clear Hl.
      revert kts2 H2. induction H as [| [k x] [k1 t] kvs kts [Hk Hx] _ IH2]; intros kts2 H2.
      * by inversion H2.
      * inversion H2 as [| ? [k2 t'] ? kts' [Hk' Hx'] Hxs']; subst. inversion IH; subst.
        simpl in *. subst. f_equal; [f_equal |]; eauto.
Qed.

(** *** Specification of [deepcopy]

    [h0] is the store at the time of the call, [hc] the part of the
    current store made of finished copies.  A memo entry is either
    finished, or belongs to an enclosing container, whose document is at
    least [n] large: an element, being smaller, can never hit it. *)
Definition memo_ok (h0 hc : heap) (n : nat) (memo : gmap nat nat) : Prop :=
  forall l y t, memo !! l = Some y -> represents h0 (VRef l) t ->
    represents hc (VRef y) t \/ n <= json_size t.

Definition memo_grows (h0 hc' : heap) (memo memo' : gmap nat nat) : Prop :=
  forall l y, memo' !! l = Some y ->
    memo !! l = Some y \/ forall t, represents h0 (VRef l) t -> represents hc' (VRef y) t.

Definition copies (h0 : heap) (bound : nat)
    (rec : val -> gmap nat nat -> heap -> option (val * gmap nat nat * heap)) : Prop :=
  forall x t memo h hc n,
    represents h0 x t -> json_size t < bound -> json_size t < n ->
    h0 ⊆ h -> hc ⊆ h -> dom hc ## dom h0 -> memo_ok h0 hc n memo ->
    exists x' memo' h' hc',
      rec x memo h = Some (x', memo', h') /\
      h ⊆ h' /\ hc ⊆ hc' /\ hc' ⊆ h' /\ dom hc' ⊆ dom hc ∪ (dom h' ∖ dom h) /\
      represents hc' x' t /\ memo_grows h0 hc' memo memo'.

Lemma memo_ok_step h0 hc hc1 n memo memo1 :
  memo_ok h0 hc n memo -> hc ⊆ hc1 -> memo_grows h0 hc1 memo memo1 ->
  memo_ok h0 hc1 n memo1.
Proof.
  intros Hok Hsub Hg l y t Hl Ht.
  destruct (Hg l y Hl) as [Hold | Hnew]; [| left; auto].
  destruct (Hok l y t Hold Ht) as [H | H]; [left | by right].
  by eapply represents_mono.
Qed.

Lemma memo_grows_trans h0 hc1 hc2 memo memo1 memo2 :
  memo_grows h0 hc1 memo memo1 -> hc1 ⊆ hc2 -> memo_grows h0 hc2 memo1 memo2 ->
  memo_grows h0 hc2 memo memo2.
Proof.
  intros H1 Hsub H2 l y Hl.
  destruct (H2 l y Hl) as [Hold | Hnew]; [| by right].
  destruct (H1 l y Hold) as [H | H]; [by left | right].
  intros t Ht. eapply represents_mono; eauto.
Qed.

Lemma copy_list_items_spec h0 rec y bound N :
  copies h0 bound rec -> N <= bound ->
  forall xs ts memo h hc ys,
    Forall2 (represents h0) xs ts ->
    list_sum (map json_size ts) < N ->
    h0 ⊆ h -> hc ⊆ h -> dom hc ## dom h0 ->
    h !! y = Some (HList ys) -> y ∉ dom hc -> y ∉ dom h0 ->
    memo_ok h0 hc N memo ->
    exists memo' h' hc' ys',
      copy_list_items rec y xs memo h = Some (VRef y, memo', h') /\
      h' !! y = Some (HList (ys ++ ys')) /\
      Forall2 (represents hc') ys' ts /\
      (forall l o, l <> y -> h !! l = Some o -> h' !! l = Some o) /\
      dom h ⊆ dom h' /\
      hc ⊆ hc' /\ hc' ⊆ h' /\ (y ∉ dom hc') /\ dom hc' ⊆ dom hc ∪ (dom h' ∖ dom h) /\
      memo_grows h0 hc' memo memo'.
Proof.
  intros Hrec HN xs ts. revert xs.
  induction ts as [| t ts IH]; intros xs memo h hc ys Hxs Hsz H0 Hc Hdisj Hy Hyc Hy0 Hmemo;
    inversion Hxs as [| a ? xs' ? Ha Hxs']; subst; simpl in *.
  - exists memo, h, hc, []. rewrite app_nil_r.
    repeat split; auto; try set_solver. intros l y' Hl. by left.
  - destruct (Hrec a t memo h hc N) as (a' & memo1 & h1 & hc1 & -> & Hh1 & Hc1 & Hc1h & Hd1 & Ha' & Hg1);
      auto; try lia.
    assert (Hy1 : h1 !! y = Some (HList ys)) by (by eapply lookup_weaken).
    assert (Hyc1 : y ∉ dom hc1).
    { intros Hin. apply Hd1 in Hin. apply elem_of_union in Hin as [Hin | Hin]; [done |].
      apply elem_of_difference in Hin as [_ Hin]. apply Hin. apply elem_of_dom. eauto. }
    unfold list_append. rewrite Hy1.
    remember (<[y := HList (ys ++ [a'])]> h1) as h2 eqn:Eh2.
    assert (Hdh : dom h ⊆ dom h1) by (by apply subseteq_dom).
    assert (Hdh0 : dom h0 ⊆ dom h) by (by apply subseteq_dom).
    assert (Hdh2 : dom h2 = {[y]} ∪ dom h1) by (rewrite Eh2; apply dom_insert_L).
    destruct (IH xs' memo1 h2 hc1 (ys ++ [a'])) as
      (memo' & h' & hc' & ys' & -> & Hy' & Hys' & Hfr & Hd' & Hc' & Hc'h & Hyc' & Hdc' & Hg');
      auto; try lia.
    + rewrite Eh2. apply insert_subseteq_r; [by apply not_elem_of_dom |]. by etrans.
    + rewrite Eh2. apply insert_subseteq_r; [by apply not_elem_of_dom | done].
    + set_solver.
    + rewrite Eh2. apply lookup_insert_eq.
    + eapply memo_ok_step; eauto.
    + exists memo', h', hc', (a' :: ys'). rewrite <- app_assoc in Hy'.
      split; [done |]. split; [done |].
      split; [constructor; [by eapply represents_mono | done] |].
      split.
      { intros l o Hne Hl. apply Hfr; [done |]. rewrite Eh2. rewrite lookup_insert_ne; [| done].
        by eapply lookup_weaken. }
      split; [clear -Hdh Hdh2 Hd'; set_solver |].
      split; [by etrans |]. split; [done |]. split; [done |].
      split; [clear -Hdc' Hd1 Hdh Hdh2 Hd'; set_solver |]. eapply memo_grows_trans; eauto.
Qed.

Lemma assoc_set_fresh {A} k (v : A) acc :
  k ∉ map fst acc -> assoc_set k v acc = acc ++ [(k, v)].
Proof.
  induction acc as [| [k' v'] acc IH]; simpl; [done |].
  intros Hk. apply not_elem_of_cons in Hk as [Hne Hk].
  destruct (String.eqb_spec k k'); [done |]. by rewrite IH.
Qed.

Lemma copy_dict_items_spec h0 rec y bound N :
  copies h0 bound rec -> N <= bound ->
  forall kts kvs memo h hc acc,
    Forall2 (entry_rep h0) kvs kts ->
    NoDup (map fst kvs) -> (forall k, k ∈ map fst kvs -> k ∉ map fst acc) ->
    list_sum (map (fun kt => json_size (snd kt)) kts) < N ->
    h0 ⊆ h -> hc ⊆ h -> dom hc ## dom h0 ->
    h !! y = Some (HDict acc) -> y ∉ dom hc -> y ∉ dom h0 ->
    memo_ok h0 hc N memo ->
    exists memo' h' hc' kvs',
      copy_dict_items rec y kvs memo h = Some (VRef y, memo', h') /\
      h' !! y = Some (HDict (acc ++ kvs')) /\
      Forall2 (entry_rep hc') kvs' kts /\ map fst kvs' = map fst kvs /\
      (forall l o, l <> y -> h !! l = Some o -> h' !! l = Some o) /\
      dom h ⊆ dom h' /\
      hc ⊆ hc' /\ hc' ⊆ h' /\ (y ∉ dom hc') /\ dom hc' ⊆ dom hc ∪ (dom h' ∖ dom h) /\
      memo_grows h0 hc' memo memo'.
Proof.
  intros Hrec HN kts.
  induction kts as [| [k t] kts IH];
    intros kvs memo h hc acc Hkvs Hnd Hacc Hsz H0 Hc Hdisj Hy Hyc Hy0 Hmemo;
    inversion Hkvs as [| [k' a] ? kvs' ? [Hk Ha] Hkvs']; subst; simpl in *.
  - exists memo, h, hc, []. rewrite app_nil_r.
    repeat split; auto; try set_solver. intros l y' Hl. by left.
  - subst k'. apply NoDup_cons in Hnd as [Hk Hnd].
    destruct (Hrec a t memo h hc N) as (a' & memo1 & h1 & hc1 & -> & Hh1 & Hc1 & Hc1h & Hd1 & Ha' & Hg1);
      auto; try lia.
    assert (Hy1 : h1 !! y = Some (HDict acc)) by (by eapply lookup_weaken).
    assert (Hyc1 : y ∉ dom hc1).
    { intros Hin. apply Hd1 in Hin. apply elem_of_union in Hin as [Hin | Hin]; [done |].
      apply elem_of_difference in Hin as [_ Hin]. apply Hin. apply elem_of_dom. eauto. }
    unfold dict_setitem. rewrite Hy1.
    rewrite assoc_set_fresh by (apply Hacc; left).
    remember (<[y := HDict (acc ++ [(k, a')])]> h1) as h2 eqn:Eh2.
    assert (Hdh : dom h ⊆ dom h1) by (by apply subseteq_dom).
    assert (Hdh0 : dom h0 ⊆ dom h) by (by apply subseteq_dom).
    assert (Hdh2 : dom h2 = {[y]} ∪ dom h1) by (rewrite Eh2; apply dom_insert_L).
    destruct (IH kvs' memo1 h2 hc1 (acc ++ [(k, a')])) as
      (memo' & h' & hc' & ys' & -> & Hy' & Hys' & Hks' & Hfr & Hd' & Hc' & Hc'h & Hyc' & Hdc' & Hg');
      auto; try lia.
    + intros k0 Hk0. rewrite map_app. simpl. intros Hin.
      apply elem_of_app in Hin as [Hin | Hin].
      * apply (Hacc k0); [by right | done].
      * apply list_elem_of_singleton in Hin. by subst.
    + rewrite Eh2. apply insert_subseteq_r; [by apply not_elem_of_dom |]. by etrans.
    + rewrite Eh2. apply insert_subseteq_r; [by apply not_elem_of_dom | done].
    + set_solver.
    + rewrite Eh2. apply lookup_insert_eq.
    + eapply memo_ok_step; eauto.
    + exists memo', h', hc', ((k, a') :: ys'). rewrite <- app_assoc in Hy'.
      split; [done |]. split; [done |].
      split; [constructor; [split; [done | by eapply represents_mono] | done] |].
      split; [simpl; by rewrite Hks' |].
      split.
      { intros l o Hne Hl. apply Hfr; [done |]. rewrite Eh2. rewrite lookup_insert_ne; [| done].
        by eapply lookup_weaken. }
      split; [clear -Hdh Hdh2 Hd'; set_solver |].
      split; [by etrans |]. split; [done |]. split; [done |].
      split; [clear -Hdc' Hd1 Hdh Hdh2 Hd'; set_solver |]. eapply memo_grows_trans; eauto.
Qed.

Lemma deepcopy_copies h0 fuel : copies h0 fuel (deepcopy fuel).
Proof.
  induction fuel as [| fuel IH]; intros x t memo h hc n Hx Hfuel Hn H0 Hc Hdisj Hmemo; [lia |].
  assert (Hatom : (forall l, x <> VRef l) ->
    exists x' memo' h' hc',
      Some (x, memo, h) = Some (x', memo', h') /\
      h ⊆ h' /\ hc ⊆ hc' /\ hc' ⊆ h' /\ dom hc' ⊆ dom hc ∪ (dom h' ∖ dom h) /\
      represents hc' x' t /\ memo_grows h0 hc' memo memo').
  { intros Hv. exists x, memo, h, hc. repeat split; auto; try set_solver.
    - by eapply represents_atom.
    - intros l y Hl. by left. }
  destruct x as [| b | z | f | s | l]; try (apply Hatom; congruence). clear Hatom.
  simpl. destruct (memo !! l) as [y |] eqn:Hml.
  { destruct (Hmemo l y t Hml Hx) as [Hdone | Hbig]; [| lia].
    exists (VRef y), memo, h, hc. repeat split; auto; try set_solver.
    intros l' y' Hl'. by left. }
  remember (fresh (dom h)) as y eqn:Ey.
  assert (Hyh : y ∉ dom h) by (rewrite Ey; apply is_fresh).
  assert (Hdh0 : dom h0 ⊆ dom h) by (by apply subseteq_dom).
  assert (Hdc : dom hc ⊆ dom h) by (by apply subseteq_dom).
  assert (Hmemo1 : memo_ok h0 hc (json_size t) (<[l := y]> memo)).
  { intros l' y' t' Hl' Ht'. destruct (decide (l = l')) as [<- | Hne].
    - right. by rewrite (represents_fun _ _ _ _ Hx Ht').
    - rewrite lookup_insert_ne in Hl' by done.
      destruct (Hmemo l' y' t' Hl' Ht') as [? | ?]; [by left | right; lia]. }
  destruct t as [| | | | | ts | kts]; try discriminate Hx.
  - apply represents_arr in Hx as Hx'. destruct Hx' as (l' & xs & [= <-] & Hl & Hxs).
    rewrite (lookup_weaken _ _ _ _ Hl H0).
    destruct (copy_list_items_spec h0 (deepcopy fuel) y fuel (json_size (JArr ts)) IH
                ltac:(lia) xs ts (<[l := y]> memo) (<[y := HList []]> h) hc [])
      as (memo' & h' & hc' & ys' & -> & Hy' & Hys' & Hfr & Hd' & Hc' & Hc'h & Hyc' & Hdc' & Hg');
      auto; try (simpl; lia).
    + apply insert_subseteq_r; [apply not_elem_of_dom; clear -Hyh Hdh0; set_solver | done].
    + apply insert_subseteq_r; [apply not_elem_of_dom; clear -Hyh Hdc; set_solver | done].
    + apply lookup_insert_eq.
    + simpl in Hy'.
      assert (Hcy : hc' !! y = None) by (by apply not_elem_of_dom).
      exists (VRef y), memo', h', (<[y := HList ys']> hc').
      split; [done |]. split.
      { apply map_subseteq_spec. intros i o Hi.
        assert (Hne : i <> y) by (intros ->; apply Hyh, elem_of_dom; eauto).
        apply Hfr; [done |]. by rewrite lookup_insert_ne. }
      split; [etrans; [exact Hc' | by apply insert_subseteq] |].
      split; [by apply insert_subseteq_l |].
      split; [rewrite dom_insert_L in *; set_solver |].
      assert (Hrep : represents (<[y := HList ys']> hc') (VRef y) (JArr ts)).
      { apply represents_arr. exists y, ys'. split; [done |].
        split; [apply lookup_insert_eq |].
        eapply Forall2_impl; [exact Hys' |]. intros v t Hv.
        eapply represents_mono; [| exact Hv]. by apply insert_subseteq. }
      split; [exact Hrep |].
      intros l2 y2 Hl2. destruct (Hg' l2 y2 Hl2) as [Hold | Hnew].
      * destruct (decide (l = l2)) as [<- | Hne].
        -- rewrite lookup_insert_eq in Hold. injection Hold as <-. right.
           intros t' Ht'. by rewrite <- (represents_fun _ _ _ _ Hx Ht').
        -- rewrite lookup_insert_ne in Hold by done. by left.
      * right. intros t' Ht'. eapply represents_mono; [| by apply Hnew].
        by apply insert_subseteq.
  - apply represents_obj in Hx as Hx'. destruct Hx' as (l' & kvs & [= <-] & Hl & Hnd & Hkvs).
    rewrite (lookup_weaken _ _ _ _ Hl H0).
    destruct (copy_dict_items_spec h0 (deepcopy fuel) y fuel (json_size (JObj kts)) IH
                ltac:(lia) kts kvs (<[l := y]> memo) (<[y := HDict []]> h) hc [])
      as (memo' & h' & hc' & ys' & -> & Hy' & Hys' & Hks' & Hfr & Hd' & Hc' & Hc'h & Hyc' & Hdc' & Hg');
      auto; try (simpl; lia).
    + intros k _. simpl. apply not_elem_of_nil.
    + apply insert_subseteq_r; [apply not_elem_of_dom; clear -Hyh Hdh0; set_solver | done].
    + apply insert_subseteq_r; [apply not_elem_of_dom; clear -Hyh Hdc; set_solver | done].
    + apply lookup_insert_eq.
    + simpl in Hy'.
      assert (Hcy : hc' !! y = None) by (by apply not_elem_of_dom).
      exists (VRef y), memo', h', (<[y := HDict ys']> hc').
      split; [done |]. split.
      { apply map_subseteq_spec. intros i o Hi.
        assert (Hne : i <> y) by (intros ->; apply Hyh, elem_of_dom; eauto).
        apply Hfr; [done |]. by rewrite lookup_insert_ne. }
      split; [etrans; [exact Hc' | by apply insert_subseteq] |].
      split; [by apply insert_subseteq_l |].
      split; [rewrite dom_insert_L in *; set_solver |].
      assert (Hrep : represents (<[y := HDict ys']> hc') (VRef y) (JObj kts)).
      { apply represents_obj. exists y, ys'. split; [done |].
        split; [apply lookup_insert_eq |]. split; [by rewrite Hks' |].
        eapply Forall2_impl; [exact Hys' |]. intros kv kt [Hk Hv]. split; [done |].
        eapply represents_mono; [| exact Hv]. by apply insert_subseteq. }
      split; [exact Hrep |].
      intros l2 y2 Hl2. destruct (Hg' l2 y2 Hl2) as [Hold | Hnew].
      * destruct (decide (l = l2)) as [<- | Hne].
        -- rewrite lookup_insert_eq in Hold. injection Hold as <-. right.
           intros t' Ht'. by rewrite <- (represents_fun _ _ _ _ Hx Ht').
        -- rewrite lookup_insert_ne in Hold by done. by left.
      * right. intros t' Ht'. eapply represents_mono; [| by apply Hnew].
        by apply insert_subseteq.
Qed.

(** A copy of a document lies wholly in objects created by the call. *)
Lemma deepcopy_fresh (h : heap) x t fuel :
  represents h x t -> json_size t < fuel ->
  exists x' memo' h',
    deepcopy fuel x ∅ h = Some (x', memo', h') /\ h ⊆ h' /\ represents (h' ∖ h) x' t.
Proof.
  intros Hx Hfuel.
  destruct (deepcopy_copies h fuel x t ∅ h ∅ (S (json_size t)))
    as (x' & memo' & h' & hc' & Heq & Hh & _ & Hc & Hd & Hrep & _); auto.
  - apply map_empty_subseteq.
  - set_solver.
  - intros l y t' Hl. by rewrite lookup_empty in Hl.
  - exists x', memo', h'. split; [done |]. split; [done |].
    eapply represents_mono; [| exact Hrep].
    apply map_subseteq_spec. intros i o Hi. apply lookup_difference_Some. split.
    + by eapply lookup_weaken.
    + apply not_elem_of_dom. intros Hin.
      assert (Hi' : i ∈ dom hc') by (apply elem_of_dom; eauto). set_solver.
Qed.

(** Whatever the store, [deepcopy] writes to objects it created only. *)
Definition extends (rec : val -> gmap nat nat -> heap -> option (val * gmap nat nat * heap)) : Prop :=
  forall x memo (h : heap) x' memo' h', rec x memo h = Some (x', memo', h') -> h ⊆ h'.

Lemma copy_list_items_frame rec y : extends rec ->
  forall xs memo (h : heap) r memo' h',
    copy_list_items rec y xs memo h = Some (r, memo', h') ->
    forall l o, l <> y -> h !! l = Some o -> h' !! l = Some o.
Proof.
  intros Hrec. induction xs as [| a xs IH]; intros memo h r memo' h' Heq l o Hne Hl; simpl in Heq.
  - by injection Heq as <- <- <-.
  - destruct (rec a memo h) as [[[a' memo1] h1] |] eqn:Ha; [| done].
    eapply IH; [exact Heq | done |].
    assert (Hl1 : h1 !! l = Some o) by (eapply lookup_weaken; [exact Hl | by eapply Hrec]).
    unfold list_append. destruct (h1 !! y) as [[ys | kvs] |]; try done.
    by rewrite lookup_insert_ne.
Qed.

Lemma copy_dict_items_frame rec y : extends rec ->
  forall kvs memo (h : heap) r memo' h',
    copy_dict_items rec y kvs memo h = Some (r, memo', h') ->
    forall l o, l <> y -> h !! l = Some o -> h' !! l = Some o.
Proof.
  intros Hrec. induction kvs as [| [k a] kvs IH]; intros memo h r memo' h' Heq l o Hne Hl;
    simpl in Heq.
  - by injection Heq as <- <- <-.
  - destruct (rec a memo h) as [[[a' memo1] h1] |] eqn:Ha; [| done].
    eapply IH; [exact Heq | done |].
    assert (Hl1 : h1 !! l = Some o) by (eapply lookup_weaken; [exact Hl | by eapply Hrec]).
    unfold dict_setitem. destruct (h1 !! y) as [[ys | kvs'] |]; try done.
    by rewrite lookup_insert_ne.
Qed.

Lemma deepcopy_extends fuel : extends (deepcopy fuel).
Proof.
  induction fuel as [| fuel IH]; intros x memo h x' memo' h' Heq;
    destruct x as [| b | z | f | s | l]; simpl in Heq; try (by injection Heq as <- <- <-).
  - destruct (memo !! l); [by injection Heq as <- <- <- | done].
  - destruct (memo !! l); [by injection Heq as <- <- <- |].
    assert (Hy : h !! fresh (dom h) = None) by (apply not_elem_of_dom, is_fresh).
    apply map_subseteq_spec. intros i o Hi.
    assert (Hne : i <> fresh (dom h)) by (intros ->; congruence).
    destruct (h !! l) as [[xs | kvs] |]; [| | done].
    + eapply (copy_list_items_frame _ _ IH); [exact Heq | done |]. by rewrite lookup_insert_ne.
    + eapply (copy_dict_items_frame _ _ IH); [exact Heq | done |]. by rewrite lookup_insert_ne.
Qed.

(** [json.loads] creates objects and changes none. *)
Lemma alloc_json_extends t : forall h : heap, h ⊆ snd (alloc_json t h).
Proof.
  induction t as [| | | | | ts IH | kts IH] using json_ind'; intros h; simpl; try done.
  - assert (Hitems : forall h : heap, h ⊆ snd (alloc_items alloc_json ts h)).
    { clear h. induction IH as [| t ts Ht _ IH2]; intros h; simpl; [done |].
      specialize (Ht h). destruct (alloc_json t h) as [x h1]. simpl in Ht.
      specialize (IH2 h1). destruct (alloc_items alloc_json ts h1) as [xs h2]. simpl in *.
      by etrans. }
    specialize (Hitems h). destruct (alloc_items alloc_json ts h) as [xs h1]. simpl in *.
    etrans; [exact Hitems |]. apply insert_subseteq, not_elem_of_dom, is_fresh.
  - assert (Hitems : forall acc (h : heap), h ⊆ snd (alloc_entries alloc_json kts acc h)).
    { clear h. induction IH as [| [k t] kts Ht _ IH2]; intros acc h; simpl; [done |].
      simpl in Ht. specialize (Ht h). destruct (alloc_json t h) as [x h1]. simpl in Ht.
      etrans; [exact Ht | apply IH2]. }
    specialize (Hitems [] h). destruct (alloc_entries alloc_json kts [] h) as [kvs h1].
    simpl in *. etrans; [exact Hitems |]. apply insert_subseteq, not_elem_of_dom, is_fresh.
Qed.

End PyFacts.

(** ** Deserialization of a unified dataset *)

Module UnifiedSpec.
Import Py Net PyFacts.

(** What iterating over a document yields, as [tuple(x)] sees it. *)
Fixpoint char_docs (s : string) : list json :=
  match s with
  | EmptyString => []
  | String c s' => JStr (String c EmptyString) :: char_docs s'
  end.

Definition iter_doc (t : json) : option (list json) :=
  match t with
  | JArr ts => Some ts
  | JObj kts => Some (map (fun kt => JStr (fst kt)) kts)
  | JStr s => Some (char_docs s)
  | _ => None
  end.

Definition or_null (o : option json) : json :=
  match o with Some t => t | None => JNull end.

Section spec.
Context `{Addressing}.

(** The outcome of [_from_json] on the dict [kts], read in store [h]. *)
Definition decoded (h : heap) (u : url.URL) (kts : list (string * json))
    (r : result unified.UnifiedDataset) : Prop :=
  match assoc_get "name" kts with
  | None => r = Raise (KeyError "name")
  | Some tn =>
      match assoc_get "keyAttributeNames" kts with
      | None => r = Raise (KeyError "keyAttributeNames")
      | Some tk =>
          match iter_doc tk with
          | None => r = Raise TypeError
          | Some tks =>
              exists d, r = Ok d /\ unified.url d = u /\
                represents h (unified.name d) tn /\
                Forall2 (represents h) (unified.key_attribute_names d) tks /\
                represents h (unified.description d) (or_null (assoc_get "description" kts))
          end
      end
  end.

(** Two values are the same value when they stand for one document. *)
Definition same_value (h : heap) (v1 v2 : val) : Prop :=
  exists t, represents h v1 t /\ represents h v2 t.

Definition same_snapshot (h : heap) (d1 d2 : unified.UnifiedDataset) : Prop :=
  unified.url d1 = unified.url d2 /\
  same_value h (unified.name d1) (unified.name d2) /\
  Forall2 (same_value h) (unified.key_attribute_names d1) (unified.key_attribute_names d2) /\
  same_value h (unified.description d1) (unified.description d2).

Definition is_atom (v : val) : Prop := forall l, v <> VRef l.

(** A snapshot whose fields are typed as annotated holds atoms only. *)
Definition atomic (d : unified.UnifiedDataset) : Prop :=
  is_atom (unified.name d) /\ Forall is_atom (unified.key_attribute_names d) /\
  is_atom (unified.description d).
End spec.

Lemma assoc_get_rep h kvs kts k :
  Forall2 (entry_rep h) kvs kts ->
  match assoc_get k kts with
  | Some t => exists v, assoc_get k kvs = Some v /\ represents h v t
  | None => assoc_get k kvs = None
  end.
Proof.
  induction 1 as [| [k1 v] [k2 t] kvs kts [Hk Hv] _ IH]; simpl; [done |].
  simpl in Hk, Hv. subst k2. destruct (String.eqb k k1); [eauto | exact IH].
Qed.

Lemma chars_rep h s : Forall2 (represents h) (chars s) (char_docs s).
Proof. induction s; simpl; constructor; done. Qed.

Lemma py_tuple_rep (h : heap) v t w :
  represents h v t -> h ⊆ store w ->
  match iter_doc t with
  | Some tks => exists xs, py_tuple v w = (Ok xs, w) /\ Forall2 (represents h) xs tks
  | None => py_tuple v w = (Raise TypeError, w)
  end.
Proof.
  intros Hv Hsub. destruct t as [| b | z | f | s | ts | kts]; simpl;
    try (simpl in Hv; subst v; done).
  - simpl in Hv; subst v. exists (chars s). split; [done | apply chars_rep].
  - apply represents_arr in Hv as (l & xs & -> & Hl & Hxs).
    exists xs. split; [| done]. unfold py_tuple. by rewrite (lookup_weaken _ _ _ _ Hl Hsub).
  - apply represents_obj in Hv as (l & kvs & -> & Hl & _ & Hkvs).
    exists (map (fun kv => VStr (fst kv)) kvs). split.
    + unfold py_tuple. by rewrite (lookup_weaken _ _ _ _ Hl Hsub).
    + clear Hl. induction Hkvs as [| kv kt kvs kts [Hk _] _ IH]; simpl; constructor; [| done].
      simpl. by rewrite Hk.
Qed.

Section facts.
Context `{Addressing}.

(** On a JSON dict, [_from_json] leaves every object in place, sends
    nothing, and its outcome is read off the document; the fields of
    the snapshot lie in objects created by the call. *)
Lemma bind_ok {A B} (c : M A) (k : A -> M B) w a w1 :
  c w = (Ok a, w1) -> bind c k w = k a w1.
Proof. intros Hc. unfold bind. by rewrite Hc. Qed.

Lemma bind_raise {A B} (c : M A) (k : A -> M B) w e w1 :
  c w = (Raise e, w1) -> bind c k w = (Raise e, w1).
Proof. intros Hc. unfold bind. by rewrite Hc. Qed.

Lemma getitem_dict y kvs k w :
  store w !! y = Some (HDict kvs) ->
  getitem (VRef y) k w =
    (match assoc_get k kvs with Some v => Ok v | None => Raise (KeyError k) end, w).
Proof. intros Hy. unfold getitem. rewrite Hy. by destruct (assoc_get k kvs). Qed.

Lemma dict_get_dict y kvs k w :
  store w !! y = Some (HDict kvs) ->
  dict_get (VRef y) k w =
    (Ok (match assoc_get k kvs with Some v => v | None => VNone end), w).
Proof. intros Hy. unfold dict_get. rewrite Hy. by destruct (assoc_get k kvs). Qed.

Lemma _from_json_spec fuel (u : url.URL) data w kts :
  represents (store w) data (JObj kts) -> json_size (JObj kts) < fuel ->
  exists r h',
    unified._from_json fuel u data w = (r, {| store := h'; calls := calls w |}) /\
    store w ⊆ h' /\ decoded (h' ∖ store w) u kts r.
Proof.
  intros Hdata Hfuel.
  destruct (deepcopy_fresh _ _ _ _ Hdata Hfuel) as (cp & memo' & h' & Hcp & Hsub & Hrep).
  assert (Hfresh : h' ∖ store w ⊆ h') by (by apply map_subseteq_difference_l).
  apply represents_obj in Hrep as (y & kvs & -> & Hy & Hnd & Hkvs).
  remember {| store := h'; calls := calls w |} as w1 eqn:Ew1.
  assert (Hy' : store w1 !! y = Some (HDict kvs)).
  { subst w1. simpl. by eapply lookup_weaken. }
  assert (Hdc : py_deepcopy fuel data w = (Ok (VRef y), w1)).
  { unfold py_deepcopy. rewrite Hcp. by subst w1. }
  pose proof (assoc_get_rep _ _ _ "name" Hkvs) as Hn.
  pose proof (assoc_get_rep _ _ _ "keyAttributeNames" Hkvs) as Hk.
  pose proof (assoc_get_rep _ _ _ "description" Hkvs) as Hd.
  exists (fst (unified._from_json fuel u data w)), h'.
  unfold unified._from_json, decoded. rewrite (bind_ok _ _ _ _ _ Hdc).
  pose proof (getitem_dict y kvs "name" w1 Hy') as Hgn.
  pose proof (getitem_dict y kvs "keyAttributeNames" w1 Hy') as Hgk.
  pose proof (dict_get_dict y kvs "description" w1 Hy') as Hgd.
  destruct (assoc_get "name" kts) as [tn |].
  2: { rewrite Hn in Hgn. rewrite (bind_raise _ _ _ _ _ Hgn). subst w1. by repeat split. }
  destruct Hn as (vn & Hn & Hvn). rewrite Hn in Hgn.
  rewrite (bind_ok _ _ _ _ _ Hgn), (bind_ok _ _ _ _ _ Hgd).
  assert (Hvd : represents (h' ∖ store w)
                  (match assoc_get "description" kvs with Some v => v | None => VNone end)
                  (or_null (assoc_get "description" kts))).
  { destruct (assoc_get "description" kts) as [td |].
    - by destruct Hd as (vd & -> & Hvd).
    - by rewrite Hd. }
  destruct (assoc_get "keyAttributeNames" kts) as [tk |].
  2: { rewrite Hk in Hgk. rewrite (bind_raise _ _ _ _ _ Hgk). subst w1. by repeat split. }
  destruct Hk as (vk & Hk & Hvk). rewrite Hk in Hgk. rewrite (bind_ok _ _ _ _ _ Hgk).
  assert (Hfresh1 : h' ∖ store w ⊆ store w1) by (by subst w1).
  pose proof (py_tuple_rep _ vk tk w1 Hvk Hfresh1) as Ht.
  destruct (iter_doc tk) as [tks |].
  - destruct Ht as (xs & Ht & Hxs). rewrite (bind_ok _ _ _ _ _ Ht). unfold ret. subst w1.
    simpl. split; [done |]. split; [done |]. eexists. split; [done |]. simpl. done.
  - rewrite (bind_raise _ _ _ _ _ Ht). subst w1. by repeat split.
Qed.

Lemma same_value_atom h v1 v2 : same_value h v1 v2 -> is_atom v1 -> v1 = v2.
Proof.
  intros (t & H1 & H2) Ha. destruct t; simpl in H1, H2; try congruence.
  - destruct H1 as (l & ? & -> & _). by destruct (Ha l).
  - destruct H1 as (l & ? & -> & _). by destruct (Ha l).
Qed.

Lemma same_values_atoms h vs1 vs2 :
  Forall2 (same_value h) vs1 vs2 -> Forall is_atom vs1 -> vs1 = vs2.
Proof.
  induction 1 as [| v1 v2 vs1 vs2 Hv _ IH]; [done |].
  intros Ha. apply Forall_cons in Ha as [Ha1 Ha2].
  f_equal; [by eapply same_value_atom | auto].
Qed.


(** C7: parsing the same JSON dict a second time, in the world left by
    the first parse, succeeds again and yields an equal snapshot: the
    same URL, and fields standing for the same documents.  When the
    fields are atoms (strings, numbers, None), as the annotations of
    [UnifiedDataset] say, the two snapshots are identical. *)
Theorem _from_json_twice fuel (u : url.URL) data w kts d1 w1 :
  represents (store w) data (JObj kts) -> json_size (JObj kts) < fuel ->
  unified._from_json fuel u data w = (Ok d1, w1) ->
  exists d2 w2,
    unified._from_json fuel u data w1 = (Ok d2, w2) /\
    same_snapshot (store w2) d1 d2 /\
    (atomic d1 -> d1 = d2).
Proof.
  intros Hdata Hfuel Hfirst.
  destruct (_from_json_spec fuel u data w kts Hdata Hfuel) as (r & h1 & Heq & Hsub & Hdec).
  rewrite Heq in Hfirst. injection Hfirst as -> <-.
  assert (Hdata1 : represents h1 data (JObj kts)) by (by eapply represents_mono).
  destruct (_from_json_spec fuel u data {| store := h1; calls := calls w |} kts Hdata1 Hfuel)
    as (r2 & h2 & Heq2 & Hsub2 & Hdec2).
  simpl in *. unfold decoded in Hdec, Hdec2.
  destruct (assoc_get "name" kts) as [tn |]; [| done].
  destruct (assoc_get "keyAttributeNames" kts) as [tk |]; [| done].
  destruct (iter_doc tk) as [tks |]; [| done].
  destruct Hdec as (d & [= <-] & Hu & Hn & Hk & Hd).
  destruct Hdec2 as (d2 & -> & Hu2 & Hn2 & Hk2 & Hd2).
  assert (Hf1 : h1 ∖ store w ⊆ h2).
  { etrans; [| exact Hsub2]. by apply map_subseteq_difference_l. }
  assert (Hf2 : h2 ∖ h1 ⊆ h2) by (by apply map_subseteq_difference_l).
  assert (Hsame : same_snapshot h2 d1 d2).
  { split; [congruence |].
    split; [exists tn; split; [exact (represents_mono _ _ _ _ Hf1 Hn)
                             | exact (represents_mono _ _ _ _ Hf2 Hn2)] |].
    split; [| eexists; split; [exact (represents_mono _ _ _ _ Hf1 Hd)
                              | exact (represents_mono _ _ _ _ Hf2 Hd2)]].
    clear -Hk Hk2 Hf1 Hf2. revert Hk2. generalize (unified.key_attribute_names d2).
    induction Hk as [| v t vs ts Hv _ IH]; intros vs2 Hk2;
      inversion Hk2 as [| v2 ? vs2' ? Hv2 Hvs2]; subst; constructor.
    - exists t. split; [exact (represents_mono _ _ _ _ Hf1 Hv)
                       | exact (represents_mono _ _ _ _ Hf2 Hv2)].
    - auto. }
  exists d2, {| store := h2; calls := calls w |}. split; [done |]. split; [done |].
  intros (Ha1 & Ha2 & Ha3). destruct Hsame as (E1 & E2 & E3 & E4).
  apply same_value_atom in E2; [| done]. apply same_value_atom in E4; [| done].
  apply same_values_atoms in E3; [| done].
  destruct d1, d2; simpl in *; congruence.
Qed.

(** C10: [_from_json] never mutates its argument: every object of the
    store, the input dict among them, is as before, and nothing is
    sent.  The fields of the returned snapshot lie in objects created
    by the call, so whatever is later done to the objects that existed
    before it, the fields still stand for the same documents.  A
    missing "description" key yields [None], not an error. *)
Theorem _from_json_no_aliasing fuel (u : url.URL) data w kts :
  represents (store w) data (JObj kts) -> json_size (JObj kts) < fuel ->
  let r := fst (unified._from_json fuel u data w) in
  let w' := snd (unified._from_json fuel u data w) in
  store w ⊆ store w' /\ represents (store w') data (JObj kts) /\ calls w' = calls w /\
  (forall d, r = Ok d ->
     exists tn tks td,
       forall h'' : heap,
         (forall l, l ∉ dom (store w) -> h'' !! l = store w' !! l) ->
         represents h'' (unified.name d) tn /\
         Forall2 (represents h'') (unified.key_attribute_names d) tks /\
         represents h'' (unified.description d) td) /\
  (assoc_get "description" kts = None ->
     (forall d, r = Ok d -> unified.description d = VNone) /\
     (forall tn tk tks, assoc_get "name" kts = Some tn ->
        assoc_get "keyAttributeNames" kts = Some tk -> iter_doc tk = Some tks ->
        exists d, r = Ok d)).
Proof.
  intros Hdata Hfuel.
  destruct (_from_json_spec fuel u data w kts Hdata Hfuel) as (r & h' & -> & Hsub & Hdec).
  cbn [fst snd store calls]. split; [done |].
  split; [exact (represents_mono _ _ _ _ Hsub Hdata) |]. split; [done |].
  unfold decoded in Hdec.
  assert (Hlater : forall h'' : heap,
            (forall l, l ∉ dom (store w) -> h'' !! l = h' !! l) -> h' ∖ store w ⊆ h'').
  { intros h'' Hh. apply map_subseteq_spec. intros i o Hi.
    apply lookup_difference_Some in Hi as [Hi Hn]. rewrite Hh; [done |].
    by apply not_elem_of_dom. }
  assert (Hraise : forall e, r = Raise e ->
            (forall tn tk tks, assoc_get "name" kts = Some tn ->
               assoc_get "keyAttributeNames" kts = Some tk -> iter_doc tk = Some tks ->
               exists d, r = Ok d) ->
            (forall d, r = Ok d -> exists (tn : json) (tks : list json) (td : json),
               forall h'' : heap,
                 (forall l, l ∉ dom (store w) -> h'' !! l = h' !! l) ->
                 represents h'' (unified.name d) tn /\
                 Forall2 (represents h'') (unified.key_attribute_names d) tks /\
                 represents h'' (unified.description d) td) /\
            (assoc_get "description" kts = None ->
               (forall d, r = Ok d -> unified.description d = VNone) /\
               (forall tn tk tks, assoc_get "name" kts = Some tn ->
                  assoc_get "keyAttributeNames" kts = Some tk -> iter_doc tk = Some tks ->
                  exists d, r = Ok d))).
  { intros e -> Hex. split; [done |]. intros _. split; [done | exact Hex]. }
  destruct (assoc_get "name" kts) as [tn |]; [| by apply (Hraise _ Hdec)].
  destruct (assoc_get "keyAttributeNames" kts) as [tk |]; [| by apply (Hraise _ Hdec)].
  destruct (iter_doc tk) as [tks |] eqn:Eit.
  2: { apply (Hraise _ Hdec). intros tn' tk' tks' [= <-] [= <-] Hit. congruence. }
  clear Hraise. destruct Hdec as (d & -> & _ & Hn & Hk & Hd). split.
  - intros d' [= <-]. exists tn, tks, (or_null (assoc_get "description" kts)).
    intros h'' Hh. specialize (Hlater h'' Hh).
    split; [exact (represents_mono _ _ _ _ Hlater Hn) |].
    split; [| exact (represents_mono _ _ _ _ Hlater Hd)].
    eapply Forall2_impl; [exact Hk |]. intros v t Hv.
    exact (represents_mono _ _ _ _ Hlater Hv).
  - intros Hnone. rewrite Hnone in Hd. simpl in Hd. split.
    + by intros d' [= <-].
    + intros. by exists d.
Qed.
End facts.

(** *** Examples on concrete documents *)

Ltac solve_represents :=
  repeat first
    [ reflexivity
    | progress simpl
    | match goal with
      | |- _ /\ _ => split
      | |- exists _, _ => eexists
      | |- NoDup _ => apply (bool_decide_unpack _); vm_compute; reflexivity
      | |- _ !! _ = Some _ => vm_compute; reflexivity
      | |- True => exact I
      end ].

Lemma represents_doc_ok :
  represents (store Demo.world_ok) (VRef 0) (JObj Demo.doc_ok).
Proof. solve_represents. Defined.

Lemma represents_doc_no_name :
  represents (store Demo.world_no_name) (VRef 0) (JObj Demo.doc_no_name).
Proof. solve_represents. Defined.

Lemma represents_doc_ill_typed :
  represents (store Demo.world_ill_typed) (VRef 0) (JObj Demo.doc_ill_typed).
Proof. solve_represents. Defined.



Lemma _from_json_twice_witness :
  exists d1 w1 d2 w2,
    unified._from_json 5 Demo.dataset_url (VRef 0) Demo.world_ok = (Ok d1, w1) /\
    unified._from_json 5 Demo.dataset_url (VRef 0) w1 = (Ok d2, w2) /\
    same_snapshot (store w2) d1 d2.
Proof.
  destruct (unified._from_json 5 Demo.dataset_url (VRef 0) Demo.world_ok) as [r w1] eqn:E.
  assert (Hr : r = fst (unified._from_json 5 Demo.dataset_url (VRef 0) Demo.world_ok))
    by (by rewrite E).
  vm_compute in Hr. subst r.
  destruct (@_from_json_twice Demo.addressing 5 Demo.dataset_url (VRef 0) Demo.world_ok
              Demo.doc_ok _ w1 represents_doc_ok ltac:(vm_compute; lia) E)
    as (d2 & w2 & H2 & Hsame & _).
  eauto 10.
Defined.

Lemma _from_json_no_aliasing_witness :
  let w' := snd (unified._from_json 5 Demo.dataset_url (VRef 0) Demo.world_ok) in
  store Demo.world_ok ⊆ store w' /\
  represents (store w') (VRef 0) (JObj Demo.doc_ok) /\ calls w' = [].
Proof.
  pose proof (@_from_json_no_aliasing Demo.addressing 5 Demo.dataset_url (VRef 0)
                Demo.world_ok Demo.doc_ok represents_doc_ok ltac:(vm_compute; lia))
    as (H1 & H2 & H3 & _).
  split; [exact H1 | split; [exact H2 | exact H3]].
Defined.

End UnifiedSpec.

(** ** The follower and the accessors *)

Module ClientSpec.
Import Py Net PyFacts.

Definition is_GET (q : Request) : Prop :=
  match q with GET _ => True | POST _ _ => False end.

(** A computation that leaves every existing object of the store as it
    is. *)
Definition preserves {A} (c : M A) : Prop :=
  forall w, store w ⊆ store (snd (c w)).

Definition success (r : Response) : Prop := (200 <= status_code r < 300)%Z.

Section client.
Context `{Addressing}.

(** The poll sent after the requests [hist] is answered by a
    document of the snapshot [op']. *)
Definition answers (s : Session) (hist : list Request) (u : url.URL)
    (op' : operation.Operation) : Prop :=
  exists r doc,
    send s hist (GET (url.str u)) = Replied r /\ success r /\
    body r = Some doc /\ operation._from_json u doc = Ok op'.

Lemma sent_sent w q1 q2 : sent (sent w q1) q2 = sent w (q1 ++ q2).
Proof. unfold sent. simpl. by rewrite app_assoc. Qed.

Lemma sent_nil w : sent w [] = w.
Proof. destruct w. unfold sent. simpl. by rewrite app_nil_r. Qed.

Lemma successful_ok r w : success r -> response.successful r w = (Ok r, w).
Proof.
  unfold success, response.successful. intros [H1 H2].
  apply Z.leb_le in H1. apply Z.ltb_lt in H2. by rewrite H1, H2.
Qed.

Lemma successful_fails r w : ~ success r -> response.successful r w = (Raise (HTTPError r), w).
Proof.
  unfold success, response.successful. intros Hn.
  destruct (200 <=? status_code r)%Z eqn:E1; [| done].
  destruct (status_code r <? 300)%Z eqn:E2; [| done].
  apply Z.leb_le in E1. apply Z.ltb_lt in E2. lia.
Qed.

Lemma _from_json_url (u : url.URL) doc op : operation._from_json u doc = Ok op -> operation.url op = u.
Proof.
  unfold operation._from_json. intros Heq.
  repeat case_match; simplify_eq. done.
Qed.

Lemma wait_unfold fuel s (op : operation.Operation) :
  operation.wait fuel s op =
    if operation.is_terminal op then ret op
    else match fuel with
         | O => lift Stuck
         | S fuel' => bind (operation.poll s op) (fun op' => operation.wait fuel' s op')
         end.
Proof. by destruct fuel. Qed.

(** One poll sends one GET to the operation's URL and touches nothing
    else; the snapshot it returns keeps the URL. *)
Lemma poll_world s (op : operation.Operation) w :
  snd (operation.poll s op w) = sent w [GET (url.str (operation.url op))].
Proof.
  unfold operation.poll, bind, get, request, response.successful, lift, raise, ret.
  repeat case_match; simplify_eq; simpl in *; congruence.
Qed.

Lemma poll_url s (op op' : operation.Operation) w :
  fst (operation.poll s op w) = Ok op' -> operation.url op' = operation.url op.
Proof.
  unfold operation.poll, bind, get, request, response.successful, lift, raise, ret.
  intros Heq. repeat case_match; simplify_eq; simpl in *; simplify_eq.
  all: by eapply _from_json_url.
Qed.

Lemma poll_answers s (op op' : operation.Operation) w :
  answers s (calls w) (operation.url op) op' ->
  operation.poll s op w = (Ok op', sent w [GET (url.str (operation.url op))]).
Proof.
  intros (r & doc & Hsend & Hok & Hbody & Hdec).
  unfold operation.poll, bind, get, request. rewrite Hsend.
  assert (Hne : (status_code r =? 404)%Z = false).
  { apply Z.eqb_neq. unfold success in Hok. lia. }
  rewrite Hne, (successful_ok _ _ Hok). unfold lift, operation.document.
  by rewrite Hbody, Hdec.
Qed.

Lemma wait_world fuel s : forall (op : operation.Operation) w,
  exists n, snd (operation.wait fuel s op w)
            = sent w (replicate n (GET (url.str (operation.url op)))).
Proof.
  induction fuel as [| fuel IH]; intros op w; rewrite wait_unfold;
    destruct (operation.is_terminal op).
  1-3: exists 0; simpl; by rewrite sent_nil.
  unfold bind. pose proof (poll_world s op w) as Hw.
  pose proof (fun op' => poll_url s op op' w) as Hu.
  destruct (operation.poll s op w) as [[op' | e |] w1]; simpl in Hw, Hu; subst w1.
  - destruct (IH op' (sent w [GET (url.str (operation.url op))])) as [n Hn].
    exists (S n). rewrite Hn, sent_sent. by rewrite (Hu op').
  - by exists 1.
  - by exists 1.
Qed.

Lemma wait_terminal fuel s : forall (op op' : operation.Operation) w,
  fst (operation.wait fuel s op w) = Ok op' -> operation.is_terminal op' = true.
Proof.
  induction fuel as [| fuel IH]; intros op op' w; rewrite wait_unfold;
    destruct (operation.is_terminal op) eqn:Et; simpl.
  - by intros [= <-].
  - done.
  - by intros [= <-].
  - unfold bind. destruct (operation.poll s op w) as [[op1 | e |] w1]; simpl; try done.
    apply IH.
Qed.

Lemma wait_follow s (u : url.URL) : forall n fuel (op : operation.Operation) w snaps,
  operation.url op = u -> operation.is_terminal op = false ->
  (forall k, k <= n -> answers s (calls w ++ replicate k (GET (url.str u))) u (snaps k)) ->
  (forall k, k < n -> operation.is_terminal (snaps k) = false) ->
  operation.is_terminal (snaps n) = true ->
  n < fuel ->
  operation.wait fuel s op w = (Ok (snaps n), sent w (replicate (S n) (GET (url.str u)))).
Proof.
  induction n as [| n IH]; intros fuel op w snaps Hu Hop Hans Hrun Hend Hfuel;
    (destruct fuel as [| fuel]; [lia |]); rewrite wait_unfold, Hop; unfold bind.
  - rewrite (poll_answers s op (snaps 0) w).
    + rewrite wait_unfold, Hend, Hu. done.
    + rewrite Hu. specialize (Hans 0 ltac:(lia)). simpl in Hans. by rewrite app_nil_r in Hans.
  - rewrite (poll_answers s op (snaps 0) w).
    2: { rewrite Hu. specialize (Hans 0 ltac:(lia)). simpl in Hans.
         by rewrite app_nil_r in Hans. }
    rewrite Hu.
    rewrite (IH fuel (snaps 0) (sent w [GET (url.str u)]) (fun k => snaps (S k))).
    + by rewrite sent_sent.
    + destruct (Hans 0 ltac:(lia)) as (r & doc & _ & _ & _ & Hdec).
      by eapply _from_json_url.
    + apply Hrun. lia.
    + intros k Hk. specialize (Hans (S k) ltac:(lia)). simpl.
      by rewrite <- app_assoc.
    + intros k Hk. apply Hrun. lia.
    + done.
    + lia.
Qed.

(** *** Frame: no client operation changes an existing object *)

Lemma preserves_bind {A B} (c : M A) (k : A -> M B) :
  preserves c -> (forall a, preserves (k a)) -> preserves (bind c k).
Proof.
  intros Hc Hk w. unfold bind. specialize (Hc w).
  destruct (c w) as [[a | e |] w1]; simpl in *; try done.
  etrans; [exact Hc | apply Hk].
Qed.

Lemma preserves_ret {A} (a : A) : preserves (ret a).
Proof. by intros w. Qed.

Lemma preserves_raise {A} e : preserves (@raise A e).
Proof. by intros w. Qed.

Lemma preserves_lift {A} (r : result A) : preserves (lift r).
Proof. by intros w. Qed.

Lemma preserves_request s q : preserves (request s q).
Proof. intros w. unfold request. by destruct (send s (calls w) q). Qed.

Lemma preserves_successful r : preserves (response.successful r).
Proof. intros w. unfold response.successful. by case_match. Qed.

Lemma preserves_json_body r : preserves (json_body r).
Proof.
  intros w. unfold json_body. destruct (body r) as [t |]; [| done].
  pose proof (alloc_json_extends t (store w)) as Hsub.
  by destruct (alloc_json t (store w)).
Qed.

Lemma preserves_py_deepcopy fuel x : preserves (py_deepcopy fuel x).
Proof.
  intros w. unfold py_deepcopy.
  destruct (deepcopy fuel x ∅ (store w)) as [[[x' memo'] h'] |] eqn:E; [| done].
  simpl. by eapply deepcopy_extends.
Qed.

Lemma preserves_getitem d k : preserves (getitem d k).
Proof. intros w. unfold getitem. by repeat case_match. Qed.

Lemma preserves_dict_get d k : preserves (dict_get d k).
Proof. intros w. unfold dict_get. by repeat case_match. Qed.

Lemma preserves_py_tuple x : preserves (py_tuple x).
Proof. intros w. unfold py_tuple. by repeat case_match. Qed.

Create HintDb frame.
#[local] Hint Resolve preserves_ret preserves_raise preserves_lift preserves_request
  preserves_successful preserves_json_body preserves_py_deepcopy preserves_getitem
  preserves_dict_get preserves_py_tuple : frame.

(** A chain of binds preserves the store when each step does. *)
Ltac frame_steps :=
  repeat first
    [ solve [auto with frame]
    | apply preserves_bind; [| intros ?]
    | case_match ].

Lemma preserves__from_json fuel (u : url.URL) data : preserves (unified._from_json fuel u data).
Proof. unfold unified._from_json. frame_steps. Qed.

#[local] Hint Resolve preserves__from_json : frame.

Lemma preserves__from_url fuel s (u : url.URL) : preserves (unified._from_url fuel s u).
Proof. unfold unified._from_url, get. frame_steps. Qed.

Lemma preserves__from_response i r : preserves (operation._from_response i r).
Proof. unfold operation._from_response. frame_steps. Qed.

Lemma preserves_poll s (op : operation.Operation) : preserves (operation.poll s op).
Proof. intros w. by rewrite poll_world. Qed.

Lemma preserves_wait fuel s (op : operation.Operation) : preserves (operation.wait fuel s op).
Proof. intros w. destruct (wait_world fuel s op w) as [n ->]. done. Qed.

#[local] Hint Resolve preserves__from_response preserves_wait : frame.

Lemma preserves__apply_changes_async s (ud : unified.UnifiedDataset) :
  preserves (unified._apply_changes_async s ud).
Proof. unfold unified._apply_changes_async, post. frame_steps. Qed.

Lemma _from_response_world i r w : snd (operation._from_response i r w) = w.
Proof.
  unfold operation._from_response, bind, response.successful, lift, raise, ret,
    operation.document.
  repeat case_match; simplify_eq; simpl in *; congruence.
Qed.

(** The errors of a computation all satisfy [P]. *)
Definition only_raises {A} (P : exn -> Prop) (c : M A) : Prop :=
  forall w e, fst (c w) = Raise e -> P e.

Lemma only_raises_bind {A B} P (c : M A) (k : A -> M B) :
  only_raises P c -> (forall a, only_raises P (k a)) -> only_raises P (bind c k).
Proof.
  intros Hc Hk w e. unfold bind. specialize (Hc w).
  destruct (c w) as [[a | e' |] w1]; simpl in *; [apply Hk | | done].
  intros [= <-]. by apply Hc.
Qed.

Definition lookup_error (e : exn) : Prop :=
  e = TypeError \/ e = AttributeError \/ exists k, e = KeyError k.

Lemma _from_json_raises fuel (u : url.URL) data :
  only_raises lookup_error (unified._from_json fuel u data).
Proof.
  unfold unified._from_json.
  apply only_raises_bind.
  { intros w e. unfold py_deepcopy. by repeat case_match. }
  intros cp. apply only_raises_bind.
  { intros w e. unfold getitem, lookup_error. repeat case_match; intros [= <-]; eauto. }
  intros name. apply only_raises_bind.
  { intros w e. unfold dict_get, lookup_error. repeat case_match; intros [= <-]; eauto. }
  intros descr. apply only_raises_bind.
  { intros w e. unfold getitem, lookup_error. repeat case_match; intros [= <-]; eauto. }
  intros kan. apply only_raises_bind.
  { intros w e. unfold py_tuple, lookup_error. repeat case_match; intros [= <-]; eauto. }
  by intros t w e.
Qed.

(** *** Properties of the follower and of the accessors *)

(** C1: a snapshot whose state is terminal is returned by the follower
    as it is, whatever the fuel, and the world, hence the list of
    requests sent, is unchanged: no network call is made. *)
Theorem wait_terminal_immediately fuel s (op : operation.Operation) w :
  operation.is_terminal op = true ->
  operation.wait fuel s op w = (Ok op, w).
Proof. intros Ht. by rewrite wait_unfold, Ht. Qed.

(** C2: from a non-terminal snapshot, if the polls are answered by [n]
    documents of non-terminal snapshots and then by one of a terminal
    snapshot, the follower returns that terminal snapshot after
    exactly [n + 1] polls of the operation's URL; with [n = 0], after
    exactly one. *)
Theorem wait_polls_until_terminal fuel s (op : operation.Operation) w n snaps :
  operation.is_terminal op = false ->
  (forall k, k <= n ->
     answers s (calls w ++ replicate k (GET (url.str (operation.url op))))
       (operation.url op) (snaps k)) ->
  (forall k, k < n -> operation.is_terminal (snaps k) = false) ->
  operation.is_terminal (snaps n) = true ->
  n < fuel ->
  operation.wait fuel s op w
    = (Ok (snaps n), sent w (replicate (S n) (GET (url.str (operation.url op))))).
Proof. intros. by apply wait_follow. Qed.

(** C4: the accessors raise [NotFound] exactly when the GET of the
    dataset's URL is answered with status 404; then the error carries
    the URL, no dataset is returned, and a single request was sent. *)
Theorem _from_url_NotFound_iff fuel s (u : url.URL) w :
  ((exists m, fst (unified._from_url fuel s u w) = Raise (NotFound m)) <->
   (exists r, send s (calls w) (GET (url.str u)) = Replied r /\ status_code r = 404%Z)) /\
  (forall r, send s (calls w) (GET (url.str u)) = Replied r -> status_code r = 404%Z ->
     unified._from_url fuel s u w
       = (Raise (NotFound (url.str u)), sent w [GET (url.str u)])) /\
  (forall i p, u = {| url.instance := i;
                      url.path := url.path (project.url p) +:+ "/unifiedDataset" |} ->
     unified.from_project fuel s i p w = unified._from_url fuel s u w).
Proof.
  assert (H404 : forall r, send s (calls w) (GET (url.str u)) = Replied r ->
            status_code r = 404%Z ->
            unified._from_url fuel s u w
              = (Raise (NotFound (url.str u)), sent w [GET (url.str u)])).
  { intros r Hsend Hst. unfold unified._from_url, bind, get, request.
    rewrite Hsend, Hst. done. }
  split; [| split; [exact H404 | by intros i p ->]].
  split.
  - intros [m Hm]. unfold unified._from_url, bind, get, request in Hm.
    destruct (send s (calls w) (GET (url.str u))) as [r | reason]; [| done].
    exists r. split; [done |].
    destruct (status_code r =? 404)%Z eqn:E; [by apply Z.eqb_eq |].
    exfalso. unfold response.successful in Hm.
    destruct ((200 <=? status_code r) && (status_code r <? 300))%Z; simpl in Hm; [| done].
    unfold json_body in Hm. destruct (body r) as [t |]; [| done].
    destruct (alloc_json t (store (sent w [GET (url.str u)]))) as [v h'].
    apply _from_json_raises in Hm as [? | [? | [k ?]]]; done.
  - intros (r & Hsend & Hst). exists (url.str u). by rewrite (H404 r).
Qed.


(** C6: [apply_changes] sends exactly one POST, to the dataset's URL
    followed by ":refresh"; the answer is parsed into the initial
    snapshot; the result is that of the follower on this snapshot, so
    only polls follow the POST and a snapshot that is returned is
    terminal.  It is returned at once when the initial snapshot is
    terminal, and after [n + 1] polls when the server answers them by
    [n] non-terminal snapshots and then a terminal one. *)
Theorem apply_changes_spec fuel s (ud : unified.UnifiedDataset) w :
  let refresh := POST (url.str (unified.url ud) +:+ ":refresh")
                   [("Content-Type", "application/json"); ("Accept", "application/json")] in
  let w1 := sent w [refresh] in
  unified._apply_changes_async s ud w =
    (match send s (calls w) refresh with
     | Replied r => fst (operation._from_response (url.instance (unified.url ud)) r w1)
     | Failed reason => Raise (ConnectionError reason)
     end, w1) /\
  unified.apply_changes fuel s ud w =
    match fst (unified._apply_changes_async s ud w) with
    | Ok op => operation.wait fuel s op w1
    | Raise e => (Raise e, w1)
    | Stuck => (Stuck, w1)
    end /\
  (exists polls, calls (snd (unified.apply_changes fuel s ud w)) = calls w ++ refresh :: polls /\
                 Forall is_GET polls) /\
  (forall op, fst (unified.apply_changes fuel s ud w) = Ok op ->
              operation.is_terminal op = true) /\
  (forall op0, fst (unified._apply_changes_async s ud w) = Ok op0 ->
     operation.is_terminal op0 = true ->
     unified.apply_changes fuel s ud w = (Ok op0, w1)) /\
  (forall op0 n snaps, fst (unified._apply_changes_async s ud w) = Ok op0 ->
     operation.is_terminal op0 = false ->
     (forall k, k <= n ->
        answers s (calls w1 ++ replicate k (GET (url.str (operation.url op0))))
          (operation.url op0) (snaps k)) ->
     (forall k, k < n -> operation.is_terminal (snaps k) = false) ->
     operation.is_terminal (snaps n) = true ->
     n < fuel ->
     unified.apply_changes fuel s ud w
       = (Ok (snaps n), sent w1 (replicate (S n) (GET (url.str (operation.url op0)))))).
Proof.
  intros refresh w1.
  assert (Hasync : unified._apply_changes_async s ud w =
    (match send s (calls w) refresh with
     | Replied r => fst (operation._from_response (url.instance (unified.url ud)) r w1)
     | Failed reason => Raise (ConnectionError reason)
     end, w1)).
  { unfold unified._apply_changes_async, bind, post, request. fold refresh. fold w1.
    destruct (send s (calls w) refresh) as [r | reason]; [| done].
    pose proof (_from_response_world (url.instance (unified.url ud)) r w1) as Hw.
    destruct (operation._from_response (url.instance (unified.url ud)) r w1) as [x w2].
    simpl in *. by subst. }
  assert (Happly : unified.apply_changes fuel s ud w =
    match fst (unified._apply_changes_async s ud w) with
    | Ok op => operation.wait fuel s op w1
    | Raise e => (Raise e, w1)
    | Stuck => (Stuck, w1)
    end).
  { unfold unified.apply_changes, bind. rewrite Hasync. simpl. by case_match. }
  split; [exact Hasync |]. split; [exact Happly |].
  rewrite Happly. split; [| split; [| split]].
  - destruct (fst (unified._apply_changes_async s ud w)) as [op | e |].
    + destruct (wait_world fuel s op w1) as [n ->]. simpl.
      exists (replicate n (GET (url.str (operation.url op)))).
      split; [by rewrite <- app_assoc |]. by apply Forall_replicate.
    + exists []. done.
    + exists []. done.
  - intros op. destruct (fst (unified._apply_changes_async s ud w)) as [op0 | e |]; try done.
    apply wait_terminal.
  - intros op0 -> Ht. by rewrite wait_unfold, Ht.
  - intros op0 n snaps -> Hop Hans Hrun Hend Hfuel. by apply wait_follow.
Qed.

End client.

(** *** The scenarios of the specification *)

(** Initial snapshot FAILED: returned at once, no poll. *)
Lemma wait_terminal_immediately_witness :
  operation.wait 0 (Demo.scripted []) (Demo.snapshot "FAILED") Demo.idle
    = (Ok (Demo.snapshot "FAILED"), Demo.idle).
Proof.
  apply (@wait_terminal_immediately Demo.addressing 0 (Demo.scripted [])
           (Demo.snapshot "FAILED") Demo.idle).
  reflexivity.
Defined.

(** Initial snapshot PENDING, first poll RUNNING, second poll SUCCEEDED:
    the SUCCEEDED snapshot is returned after exactly two polls. *)
Lemma wait_polls_until_terminal_witness :
  operation.wait 2 (Demo.scripted [Demo.reply 200 "RUNNING"; Demo.reply 200 "SUCCEEDED"])
    (Demo.snapshot "PENDING") Demo.idle
  = (Ok (Demo.snapshot "SUCCEEDED"),
     sent Demo.idle [GET (url.str Demo.op_url); GET (url.str Demo.op_url)]).
Proof.
  apply (@wait_polls_until_terminal Demo.addressing 2
           (Demo.scripted [Demo.reply 200 "RUNNING"; Demo.reply 200 "SUCCEEDED"])
           (Demo.snapshot "PENDING") Demo.idle 1
           (fun k => match k with
                     | O => Demo.snapshot "RUNNING"
                     | S _ => Demo.snapshot "SUCCEEDED"
                     end)).
  - reflexivity.
  - intros [| [| k]] Hk; [| | lia].
    + exists (Demo.reply 200 "RUNNING"), (JObj [("state", JStr "RUNNING")]).
      split; [reflexivity |]. split; [unfold success; simpl; lia |].
      split; reflexivity.
    + exists (Demo.reply 200 "SUCCEEDED"), (JObj [("state", JStr "SUCCEEDED")]).
      split; [reflexivity |]. split; [unfold success; simpl; lia |].
      split; reflexivity.
  - intros [| k] Hk; [reflexivity | lia].
  - reflexivity.
  - lia.
Defined.


(** A dataset that does not exist: the GET is answered with 404. *)
Lemma _from_url_NotFound_iff_witness :
  unified._from_url 5 (Demo.scripted [Demo.reply 404 "gone"]) Demo.dataset_url Demo.idle
    = (Raise (NotFound (url.str Demo.dataset_url)),
       sent Demo.idle [GET (url.str Demo.dataset_url)]).
Proof.
  destruct (@_from_url_NotFound_iff Demo.addressing 5 (Demo.scripted [Demo.reply 404 "gone"])
              Demo.dataset_url Demo.idle) as (_ & H404 & _).
  apply (H404 (Demo.reply 404 "gone")); reflexivity.
Defined.

(** Refreshing a dataset: the POST creates a PENDING operation, which
    the polls report RUNNING and then SUCCEEDED. *)
Lemma apply_changes_spec_witness :
  unified.apply_changes 3
    (Demo.scripted [Demo.created "PENDING"; Demo.reply 200 "RUNNING";
                    Demo.reply 200 "SUCCEEDED"])
    Demo.customers Demo.idle
  = (Ok (Demo.snapshot "SUCCEEDED"),
     sent Demo.idle
       [POST (url.str Demo.dataset_url +:+ ":refresh")
          [("Content-Type", "application/json"); ("Accept", "application/json")];
        GET (url.str Demo.op_url); GET (url.str Demo.op_url)]).
Proof.
  destruct (@apply_changes_spec Demo.addressing 3
              (Demo.scripted [Demo.created "PENDING"; Demo.reply 200 "RUNNING";
                              Demo.reply 200 "SUCCEEDED"])
              Demo.customers Demo.idle) as (_ & _ & _ & _ & _ & Hrun).
  rewrite (Hrun (Demo.snapshot "PENDING") 1
             (fun k => match k with
                       | O => Demo.snapshot "RUNNING"
                       | S _ => Demo.snapshot "SUCCEEDED"
                       end)).
  - reflexivity.
  - reflexivity.
  - reflexivity.
  - intros [| [| k]] Hk; [| | lia].
    + exists (Demo.reply 200 "RUNNING"), (JObj [("state", JStr "RUNNING")]).
      split; [reflexivity |]. split; [unfold success; simpl; lia |].
      split; reflexivity.
    + exists (Demo.reply 200 "SUCCEEDED"), (JObj [("state", JStr "SUCCEEDED")]).
      split; [reflexivity |]. split; [unfold success; simpl; lia |].
      split; reflexivity.
  - intros [| k] Hk; [reflexivity | lia].
  - reflexivity.
  - lia.
Defined.

End ClientSpec.

(** ** The published-cluster accessors of a mastering project *)

Module MasteringSpec.
Import mastering.

Section facts.
Context `{Unify}.

(** C9: once the project's unified dataset is known, each accessor
    makes exactly one lookup by name, of the unified dataset's name
    followed by its fixed suffix.  [published_clusters] wraps the data
    of the dataset found under the alias [api_path + "/publishedClusters"];
    the two others return the dataset found. *)
Theorem accessors_lookup_by_suffix (self : MasteringProject) ud log :
  unified_dataset self = inr ud ->
  published_clusters self log =
    (match by_name (Dataset_name ud +:+ "_dedup_published_clusters") with
     | inr canonical =>
         inr (Dataset_from_json (Dataset_data canonical)
                (api_path self +:+ "/publishedClusters"))
     | inl e => inl e
     end,
     log ++ [Dataset_name ud +:+ "_dedup_published_clusters"]) /\
  record_clusters_with_data self log =
    (by_name (Dataset_name ud +:+ "_dedup_clusters_with_data"),
     log ++ [Dataset_name ud +:+ "_dedup_clusters_with_data"]) /\
  published_clusters_with_data self log =
    (by_name (Dataset_name ud +:+ "_dedup_published_clusters_with_data"),
     log ++ [Dataset_name ud +:+ "_dedup_published_clusters_with_data"]).
Proof.
  intros Hud.
  unfold published_clusters, record_clusters_with_data, published_clusters_with_data,
    bind, lift, datasets_by_name, ret.
  rewrite Hud. split; [| split].
  - by destruct (by_name (Dataset_name ud +:+ "_dedup_published_clusters")).
  - by destruct (by_name (Dataset_name ud +:+ "_dedup_clusters_with_data")).
  - by destruct (by_name (Dataset_name ud +:+ "_dedup_published_clusters_with_data")).
Qed.
End facts.

Lemma accessors_lookup_by_suffix_witness :
  let self := @Build_MasteringProject Demo.unify "projects/1" (inr ("people", "datasets/3")) in
  snd (published_clusters self []) = ["people_dedup_published_clusters"] /\
  snd (record_clusters_with_data self []) = ["people_dedup_clusters_with_data"] /\
  snd (published_clusters_with_data self []) = ["people_dedup_published_clusters_with_data"].
Proof.
  destruct (@accessors_lookup_by_suffix Demo.unify
              (@Build_MasteringProject Demo.unify "projects/1" (inr ("people", "datasets/3")))
              ("people", "datasets/3") [] eq_refl) as (H1 & H2 & H3).
  cbv zeta. rewrite H1, H2, H3. repeat split.
Defined.

End MasteringSpec.

(** ** Loading a JSON body *)

Module JsonLoad.
Import Py Net PyFacts.

(** The entries of a parsed object: a repeated key keeps its first
    position and takes its last value. *)
Definition dedupe {A} (kts : list (string * A)) : list (string * A) :=
  fold_left (fun acc kt => assoc_set (fst kt) (snd kt) acc) kts [].

(** The document that the objects built by [json.loads] stand for. *)
Fixpoint normalize (t : json) : json :=
  match t with
  | JArr ts => JArr (map normalize ts)
  | JObj kts => JObj (dedupe (map (fun kt => (fst kt, normalize (snd kt))) kts))
  | _ => t
  end.

Lemma assoc_set_keys {A B} k (x : A) (t : B) av at_ :
  map fst av = map fst at_ ->
  map fst (assoc_set k x av) = map fst (assoc_set k t at_).
Proof.
  revert at_. induction av as [| [k1 v1] av IH]; intros [| [k2 t2] at_] Hk; simpl in *;
    try done.
  injection Hk as -> Hk. destruct (String.eqb k k2); simpl; [by rewrite Hk |].
  f_equal. by apply IH.
Qed.

Lemma assoc_set_NoDup {A} k (x : A) av :
  NoDup (map fst av) -> NoDup (map fst (assoc_set k x av)).
Proof.
  induction av as [| [k1 v1] av IH]; simpl; intros Hnd.
  - apply NoDup_singleton.
  - apply NoDup_cons in Hnd as [Hk1 Hnd].
    destruct (String.eqb_spec k k1) as [-> | Hne]; simpl.
    + by apply NoDup_cons.
    + apply NoDup_cons. split; [| by apply IH].
      intros Hin. apply Hk1. clear -Hin Hne.
      induction av as [| [k2 v2] av IH]; simpl in *.
      * apply list_elem_of_singleton in Hin. congruence.
      * destruct (String.eqb_spec k k2) as [-> | Hne2]; simpl in *.
        -- done.
        -- apply elem_of_cons in Hin as [-> | Hin]; [left | right; by apply IH].
Qed.

Lemma assoc_set_rep h k x t av at_ :
  Forall2 (entry_rep h) av at_ -> represents h x t ->
  Forall2 (entry_rep h) (assoc_set k x av) (assoc_set k t at_).
Proof.
  intros Hacc Hx. induction Hacc as [| [k1 v1] [k2 t2] av at_ [Hk Hv] Hrest IH]; simpl.
  - constructor; [done | constructor].
  - simpl in Hk, Hv. subst k2. destruct (String.eqb k k1).
    + constructor; [done | exact Hrest].
    + constructor; [done | exact IH].
Qed.

Lemma entry_rep_mono (h h' : heap) av at_ :
  h ⊆ h' -> Forall2 (entry_rep h) av at_ -> Forall2 (entry_rep h') av at_.
Proof.
  intros Hsub Hacc. eapply Forall2_impl; [exact Hacc |]. intros kv kt [Hk Hv].
  split; [done |]. by eapply represents_mono.
Qed.

(** The value built by [json.loads] stands for the document. *)
Lemma alloc_json_represents t : forall h : heap,
  represents (snd (alloc_json t h)) (fst (alloc_json t h)) (normalize t).
Proof.
  induction t as [| | | | | ts IH | kts IH] using json_ind'; intros h; try done.
  - assert (Hitems : forall h : heap,
              h ⊆ snd (alloc_items alloc_json ts h) /\
              Forall2 (represents (snd (alloc_items alloc_json ts h)))
                (fst (alloc_items alloc_json ts h)) (map normalize ts)).
    { clear h. induction IH as [| t ts Ht _ IH2]; intros h; simpl; [by split |].
      specialize (Ht h). pose proof (alloc_json_extends t h) as He.
      destruct (alloc_json t h) as [x h1]. simpl in Ht, He.
      destruct (IH2 h1) as [He2 Hxs]. destruct (alloc_items alloc_json ts h1) as [xs h2].
      simpl in *. split; [by etrans |].
      constructor; [by eapply represents_mono | done]. }
    destruct (Hitems h) as [He Hxs]. cbn [alloc_json normalize].
    destruct (alloc_items alloc_json ts h) as [xs h1]. cbn [fst snd] in *.
    assert (Hy : h1 !! fresh (dom h1) = None) by apply not_elem_of_dom, is_fresh.
    apply represents_arr. exists (fresh (dom h1)), xs. split; [done |].
    split; [apply lookup_insert_eq |].
    eapply Forall2_impl; [exact Hxs |]. intros v t Hv.
    eapply represents_mono; [| exact Hv]. by apply insert_subseteq.
  - assert (Hitems : forall (h : heap) av at_,
              Forall2 (entry_rep h) av at_ -> NoDup (map fst av) ->
              let r := alloc_entries alloc_json kts av h in
              h ⊆ snd r /\ NoDup (map fst (fst r)) /\
              Forall2 (entry_rep (snd r)) (fst r)
                (fold_left (fun acc kt => assoc_set (fst kt) (snd kt) acc)
                   (map (fun kt => (fst kt, normalize (snd kt))) kts) at_)).
    { clear h. induction IH as [| [k t] kts Ht _ IH2]; intros h av at_ Hacc Hnd; simpl.
      { by split. }
      simpl in Ht. specialize (Ht h). pose proof (alloc_json_extends t h) as He.
      destruct (alloc_json t h) as [x h1]. simpl in Ht, He.
      destruct (IH2 h1 (assoc_set k x av) (assoc_set k (normalize t) at_))
        as (He2 & Hnd2 & Hrep2).
      - apply assoc_set_rep; [by eapply entry_rep_mono | done].
      - by apply assoc_set_NoDup.
      - split; [by etrans | by split]. }
    destruct (Hitems h [] []) as (He & Hnd & Hkvs); [constructor | constructor |].
    cbn [alloc_json normalize]. unfold dedupe.
    destruct (alloc_entries alloc_json kts [] h) as [kvs h1]. cbn [fst snd] in *.
    assert (Hy : h1 !! fresh (dom h1) = None) by apply not_elem_of_dom, is_fresh.
    apply represents_obj. exists (fresh (dom h1)), kvs. split; [done |].
    split; [apply lookup_insert_eq |]. split; [done |].
    eapply entry_rep_mono; [| exact Hkvs]. by apply insert_subseteq.
Qed.

(** [r.json()] on a JSON body: a fresh value standing for the body; no
    existing object changes and nothing is sent. *)
Lemma json_body_represents r t w :
  body r = Some t ->
  exists v w', json_body r w = (Ok v, w') /\ store w ⊆ store w' /\ calls w' = calls w /\
    represents (store w') v (normalize t).
Proof.
  intros Hb. unfold json_body. rewrite Hb.
  pose proof (alloc_json_represents t (store w)) as Hrep.
  pose proof (alloc_json_extends t (store w)) as Hext.
  destruct (alloc_json t (store w)) as [v h]. simpl in *.
  by exists v, {| store := h; calls := calls w |}.
Qed.

End JsonLoad.

(** ** More on the accessors of a unified dataset *)

Module AccessorSpec.
Import Py Net PyFacts UnifiedSpec ClientSpec JsonLoad.

(** A scalar document and the atom that stands for it. *)
Definition scalar (t : json) : option val :=
  match t with
  | JNull => Some VNone
  | JBool b => Some (VBool b)
  | JInt z => Some (VInt z)
  | JFloat f => Some (VFloat f)
  | JStr s => Some (VStr s)
  | JArr _ | JObj _ => None
  end.

(** A computation that sends nothing. *)
Definition quiet {A} (c : M A) : Prop :=
  forall w, calls (snd (c w)) = calls w.

(** Every value returned satisfies [P]. *)
Definition returns {A} (P : A -> Prop) (c : M A) : Prop :=
  forall w a, fst (c w) = Ok a -> P a.

Section facts.
Context `{Addressing}.

Lemma quiet_bind {A B} (c : M A) (k : A -> M B) :
  quiet c -> (forall a, quiet (k a)) -> quiet (bind c k).
Proof.
  intros Hc Hk w. unfold bind. specialize (Hc w).
  destruct (c w) as [[a | e |] w1]; simpl in *; try done.
  by rewrite Hk.
Qed.

Lemma quiet_ret {A} (a : A) : quiet (ret a).
Proof. by intros w. Qed.

Lemma quiet_successful r : quiet (response.successful r).
Proof. intros w. unfold response.successful. by case_match. Qed.

Lemma quiet_json_body r : quiet (json_body r).
Proof. intros w. unfold json_body. by repeat case_match. Qed.

Lemma quiet_py_deepcopy fuel x : quiet (py_deepcopy fuel x).
Proof. intros w. unfold py_deepcopy. by repeat case_match. Qed.

Lemma quiet_getitem d k : quiet (getitem d k).
Proof. intros w. unfold getitem. by repeat case_match. Qed.

Lemma quiet_dict_get d k : quiet (dict_get d k).
Proof. intros w. unfold dict_get. by repeat case_match. Qed.

Lemma quiet_py_tuple x : quiet (py_tuple x).
Proof. intros w. unfold py_tuple. by repeat case_match. Qed.

Create HintDb quiet.
#[local] Hint Resolve quiet_ret quiet_successful quiet_json_body quiet_py_deepcopy
  quiet_getitem quiet_dict_get quiet_py_tuple : quiet.

Lemma quiet__from_json fuel (u : url.URL) data : quiet (unified._from_json fuel u data).
Proof.
  unfold unified._from_json.
  repeat first [solve [auto with quiet] | apply quiet_bind; [| intros ?]].
Qed.

Lemma returns_bind {A B} (P : B -> Prop) (c : M A) (k : A -> M B) :
  (forall a, returns P (k a)) -> returns P (bind c k).
Proof.
  intros Hk w b. unfold bind.
  destruct (c w) as [[a | e |] w1]; simpl; [apply Hk | done | done].
Qed.

Lemma returns__from_json fuel (u : url.URL) data :
  returns (fun d => unified.url d = u) (unified._from_json fuel u data).
Proof.
  unfold unified._from_json.
  do 5 (apply returns_bind; intros ?).
  by intros w d [= <-].
Qed.

Lemma returns__from_url fuel s (u : url.URL) :
  returns (fun d => unified.url d = u) (unified._from_url fuel s u).
Proof.
  unfold unified._from_url. apply returns_bind. intros r.
  case_match; [by intros w d |].
  do 2 (apply returns_bind; intros ?). apply returns__from_json.
Qed.

(** X2: whatever the server answers and whatever the body holds,
    [_from_url] sends one request, the GET of the dataset's URL, and
    [from_project] one GET of the project's path followed by
    "/unifiedDataset" on the given instance: no retry, no second
    request, never a POST. *)
Theorem _from_url_one_request fuel s (u : url.URL) i (p : project.Project) w :
  calls (snd (unified._from_url fuel s u w)) = calls w ++ [GET (url.str u)] /\
  calls (snd (unified.from_project fuel s i p w))
    = calls w ++ [GET (URL_str i (url.path (project.url p) +:+ "/unifiedDataset"))].
Proof.
  assert (Hone : forall u : url.URL,
            calls (snd (unified._from_url fuel s u w)) = calls w ++ [GET (url.str u)]).
  { clear u. intros u. unfold unified._from_url, bind at 1, get, request.
    destruct (send s (calls w) (GET (url.str u))) as [r | reason]; [| done].
    destruct (status_code r =? 404)%Z; [done |].
    assert (Hq : quiet (bind (response.successful r) (fun r' =>
                   bind (json_body r') (fun data => unified._from_json fuel u data)))).
    { apply quiet_bind; [apply quiet_successful | intros r'].
      apply quiet_bind; [apply quiet_json_body | intros data]. apply quiet__from_json. }
    by rewrite Hq. }
  split; [apply Hone |]. unfold unified.from_project. by rewrite Hone.
Qed.

(** X3: a dataset that is returned carries the URL that was asked for; for
    [from_project], the instance given and the project's path followed
    by "/unifiedDataset". *)
Theorem returned_dataset_url fuel s (u : url.URL) data i (p : project.Project) w d :
  (fst (unified._from_json fuel u data w) = Ok d -> unified.url d = u) /\
  (fst (unified._from_url fuel s u w) = Ok d -> unified.url d = u) /\
  (fst (unified.from_project fuel s i p w) = Ok d ->
     url.instance (unified.url d) = i /\
     url.path (unified.url d) = url.path (project.url p) +:+ "/unifiedDataset").
Proof.
  split; [apply returns__from_json |]. split; [apply returns__from_url |].
  unfold unified.from_project. intros Hd. apply returns__from_url in Hd. by rewrite Hd.
Qed.

Lemma scalar_rep h v t vd : represents h v t -> scalar t = Some vd -> v = vd.
Proof. destruct t; simpl; intros Hv Hs; simplify_eq; done. Qed.

Lemma strings_rep h xs ks : Forall2 (represents h) xs (map JStr ks) -> xs = map VStr ks.
Proof.
  revert xs. induction ks as [| k ks IH]; intros xs Hxs; inversion Hxs; subst; [done |].
  simpl in *. f_equal; [done | by apply IH].
Qed.

Lemma _from_json_typed_run fuel (u : url.URL) data w kts n ks vd :
  represents (store w) data (JObj kts) -> json_size (JObj kts) < fuel ->
  assoc_get "name" kts = Some (JStr n) ->
  assoc_get "keyAttributeNames" kts = Some (JArr (map JStr ks)) ->
  scalar (or_null (assoc_get "description" kts)) = Some vd ->
  exists h',
    unified._from_json fuel u data w
      = (Ok {| unified.url := u; unified.name := VStr n;
               unified.key_attribute_names := map VStr ks;
               unified.description := vd |},
         {| store := h'; calls := calls w |}) /\
    store w ⊆ h'.
Proof.
  intros Hdata Hfuel Hn Hk Hd.
  destruct (_from_json_spec fuel u data w kts Hdata Hfuel) as (r & h' & -> & Hsub & Hdec).
  unfold decoded in Hdec. rewrite Hn, Hk in Hdec. simpl in Hdec.
  destruct Hdec as (d & -> & Hu & Hvn & Hvk & Hvd). exists h'. split; [| done].
  apply (scalar_rep _ _ _ _ Hvd) in Hd. apply strings_rep in Hvk.
  simpl in Hvn. destruct d; simpl in *. by subst.
Qed.

(** X4: the intended use.  A dict whose "name" is a string, whose
    "keyAttributeNames" is a list of strings and whose "description" is
    absent, null or any scalar is deserialized into exactly the
    snapshot with these values, the key attribute names in the order of
    the list. *)
Theorem _from_json_typed fuel (u : url.URL) data w kts n ks vd :
  represents (store w) data (JObj kts) -> json_size (JObj kts) < fuel ->
  assoc_get "name" kts = Some (JStr n) ->
  assoc_get "keyAttributeNames" kts = Some (JArr (map JStr ks)) ->
  scalar (or_null (assoc_get "description" kts)) = Some vd ->
  fst (unified._from_json fuel u data w)
    = Ok {| unified.url := u; unified.name := VStr n;
            unified.key_attribute_names := map VStr ks;
            unified.description := vd |}.
Proof.
  intros Hdata Hfuel Hn Hk Hd.
  destruct (_from_json_typed_run fuel u data w kts n ks vd Hdata Hfuel Hn Hk Hd)
    as (h' & -> & _).
  done.
Qed.

(** X1: fetching.  When the GET is answered with a success status and a JSON
    object whose "name" is a string and whose "keyAttributeNames" is a
    list of strings, [_from_url] returns exactly the dataset the body
    describes, at the URL asked for, after this one request and without
    changing any existing object.  A key repeated in the body counts
    with its last value. *)
Theorem _from_url_fetches fuel s (u : url.URL) w r t kts n ks vd :
  send s (calls w) (GET (url.str u)) = Replied r -> success r ->
  body r = Some t -> normalize t = JObj kts ->
  assoc_get "name" kts = Some (JStr n) ->
  assoc_get "keyAttributeNames" kts = Some (JArr (map JStr ks)) ->
  scalar (or_null (assoc_get "description" kts)) = Some vd ->
  json_size (JObj kts) < fuel ->
  exists w',
    unified._from_url fuel s u w
      = (Ok {| unified.url := u; unified.name := VStr n;
               unified.key_attribute_names := map VStr ks;
               unified.description := vd |}, w') /\
    calls w' = calls w ++ [GET (url.str u)] /\ store w ⊆ store w'.
Proof.
  intros Hsend Hok Hbody Hnorm Hn Hk Hd Hfuel.
  assert (Hget : get s (url.str u) w = (Ok r, sent w [GET (url.str u)])).
  { unfold get, request. by rewrite Hsend. }
  assert (Hne : (status_code r =? 404)%Z = false).
  { apply Z.eqb_neq. unfold success in Hok. lia. }
  destruct (json_body_represents r t (sent w [GET (url.str u)]) Hbody)
    as (v & w2 & Hjson & Hsub2 & Hcalls2 & Hrep).
  rewrite Hnorm in Hrep.
  destruct (_from_json_typed_run fuel u v w2 kts n ks vd Hrep Hfuel Hn Hk Hd)
    as (h' & Hrun & Hsub3).
  exists {| store := h'; calls := calls w2 |}.
  unfold unified._from_url. rewrite (bind_ok _ _ _ _ _ Hget), Hne.
  rewrite (bind_ok _ _ _ _ _ (successful_ok r _ Hok)), (bind_ok _ _ _ _ _ Hjson).
  split; [exact Hrun |]. simpl. split; [by rewrite Hcalls2 |].
  etrans; [| exact Hsub3]. exact Hsub2.
Qed.

(** X7: errors before any parsing surface as they are, after the one
    request: a GET that gets no response raises the transport's error,
    and a success response whose body is not JSON raises
    [JSONDecodeError]; no object is created. *)
Theorem _from_url_unparsed_errors fuel s (u : url.URL) w :
  (forall reason, send s (calls w) (GET (url.str u)) = Failed reason ->
     unified._from_url fuel s u w
       = (Raise (ConnectionError reason), sent w [GET (url.str u)])) /\
  (forall r, send s (calls w) (GET (url.str u)) = Replied r -> success r ->
     body r = None ->
     unified._from_url fuel s u w = (Raise JSONDecodeError, sent w [GET (url.str u)])).
Proof.
  split.
  - intros reason Hsend. unfold unified._from_url, bind, get, request. by rewrite Hsend.
  - intros r Hsend Hok Hbody.
    assert (Hne : (status_code r =? 404)%Z = false).
    { apply Z.eqb_neq. unfold success in Hok. lia. }
    unfold unified._from_url, bind, get, request.
    rewrite Hsend, Hne, (successful_ok r _ Hok). unfold json_body. by rewrite Hbody.
Qed.

(** X8: when the POST of the refresh gets no response, [apply_changes]
    raises the transport's error after this single request: no
    operation is parsed and nothing is polled. *)
Theorem apply_changes_post_failure fuel s (ud : unified.UnifiedDataset) w reason :
  let refresh := POST (url.str (unified.url ud) +:+ ":refresh")
                   [("Content-Type", "application/json"); ("Accept", "application/json")] in
  send s (calls w) refresh = Failed reason ->
  unified._apply_changes_async s ud w = (Raise (ConnectionError reason), sent w [refresh]) /\
  unified.apply_changes fuel s ud w = (Raise (ConnectionError reason), sent w [refresh]).
Proof.
  intros refresh Hsend.
  assert (Hasync : unified._apply_changes_async s ud w
                   = (Raise (ConnectionError reason), sent w [refresh])).
  { unfold unified._apply_changes_async, bind, post, request. fold refresh.
    by rewrite Hsend. }
  split; [exact Hasync |]. unfold unified.apply_changes, bind. by rewrite Hasync.
Qed.

(** X5: data that is not a dict (a list, a string, a number, a boolean,
    None) cannot be indexed by "name": [_from_json] raises [TypeError],
    sends nothing and changes no existing object. *)
Theorem _from_json_not_a_dict fuel (u : url.URL) data w t :
  represents (store w) data t -> (forall kts, t <> JObj kts) -> json_size t < fuel ->
  fst (unified._from_json fuel u data w) = Raise TypeError /\
  calls (snd (unified._from_json fuel u data w)) = calls w /\
  store w ⊆ store (snd (unified._from_json fuel u data w)).
Proof.
  intros Hdata Hnot Hfuel.
  split; [| split; [apply quiet__from_json | apply preserves__from_json]].
  destruct (deepcopy_fresh _ _ _ _ Hdata Hfuel) as (cp & memo' & h' & Hcp & Hsub & Hrep).
  assert (Hdc : py_deepcopy fuel data w = (Ok cp, {| store := h'; calls := calls w |})).
  { unfold py_deepcopy. by rewrite Hcp. }
  unfold unified._from_json. rewrite (bind_ok _ _ _ _ _ Hdc).
  assert (Hget : getitem cp "name" {| store := h'; calls := calls w |}
                 = (Raise TypeError, {| store := h'; calls := calls w |})).
  { destruct t as [| b | z | f | s | ts | kts]; try (simpl in Hrep; by subst cp).
    - apply represents_arr in Hrep as (y & xs & -> & Hy & _).
      unfold getitem. simpl.
      by rewrite (lookup_weaken _ _ _ _ Hy (map_subseteq_difference_l _ _ _ (reflexivity _))).
    - by destruct (Hnot kts). }
  by rewrite (bind_raise _ _ _ _ _ Hget).
Qed.

(** X6: only "name", "description" and "keyAttributeNames" are read: two
    dicts that agree on these three keys fail with the same error, or
    both give a snapshot, with the same URL and fields standing for the
    same documents. *)
Theorem _from_json_other_keys_ignored fuel (u : url.URL) data1 data2 w kts1 kts2 :
  represents (store w) data1 (JObj kts1) -> represents (store w) data2 (JObj kts2) ->
  json_size (JObj kts1) < fuel -> json_size (JObj kts2) < fuel ->
  (forall k, k ∈ ["name"; "description"; "keyAttributeNames"] ->
     assoc_get k kts1 = assoc_get k kts2) ->
  let r1 := unified._from_json fuel u data1 w in
  let r2 := unified._from_json fuel u data2 w in
  (forall e, fst r1 = Raise e <-> fst r2 = Raise e) /\
  (forall d1, fst r1 = Ok d1 ->
     exists d2 tn tks td,
       fst r2 = Ok d2 /\ unified.url d1 = unified.url d2 /\
       represents (store (snd r1)) (unified.name d1) tn /\
       represents (store (snd r2)) (unified.name d2) tn /\
       Forall2 (represents (store (snd r1))) (unified.key_attribute_names d1) tks /\
       Forall2 (represents (store (snd r2))) (unified.key_attribute_names d2) tks /\
       represents (store (snd r1)) (unified.description d1) td /\
       represents (store (snd r2)) (unified.description d2) td).
Proof.
  intros Hd1 Hd2 Hf1 Hf2 Hagree.
  destruct (_from_json_spec fuel u data1 w kts1 Hd1 Hf1) as (r1 & h1 & E1 & Hs1 & Hdec1).
  destruct (_from_json_spec fuel u data2 w kts2 Hd2 Hf2) as (r2 & h2 & E2 & Hs2 & Hdec2).
  rewrite E1, E2. cbn [fst snd store]. unfold decoded in Hdec1, Hdec2.
  rewrite <- (Hagree "name") in Hdec2 by set_solver.
  rewrite <- (Hagree "keyAttributeNames") in Hdec2 by set_solver.
  rewrite <- (Hagree "description") in Hdec2 by set_solver.
  assert (Hm1 : h1 ∖ store w ⊆ h1) by (by apply map_subseteq_difference_l).
  assert (Hm2 : h2 ∖ store w ⊆ h2) by (by apply map_subseteq_difference_l).
  destruct (assoc_get "name" kts1) as [tn |]; [| by subst].
  destruct (assoc_get "keyAttributeNames" kts1) as [tk |]; [| by subst].
  destruct (iter_doc tk) as [tks |]; [| by subst].
  destruct Hdec1 as (d1 & -> & Hu1 & Hn1 & Hk1 & Hde1).
  destruct Hdec2 as (d2 & -> & Hu2 & Hn2 & Hk2 & Hde2).
  split; [done |]. intros d [= <-].
  exists d2, tn, tks, (or_null (assoc_get "description" kts1)).
  split; [done |]. split; [congruence |].
  split; [exact (represents_mono _ _ _ _ Hm1 Hn1) |].
  split; [exact (represents_mono _ _ _ _ Hm2 Hn2) |].
  split; [eapply Forall2_impl; [exact Hk1 |]; intros v t Hv;
          exact (represents_mono _ _ _ _ Hm1 Hv) |].
  split; [eapply Forall2_impl; [exact Hk2 |]; intros v t Hv;
          exact (represents_mono _ _ _ _ Hm2 Hv) |].
  split; [exact (represents_mono _ _ _ _ Hm1 Hde1) | exact (represents_mono _ _ _ _ Hm2 Hde2)].
Qed.
End facts.

(** *** Examples *)

(** A list [[1]] at location 0. *)
Definition world_list : World :=
  {| store := <[0 := HList [VInt 1]]> ∅; calls := [] |}.

(** Two dicts sharing their list of key attribute names; the second has
    one more key, "version". *)
Definition world_two_dicts : World :=
  {| store :=
       <[0 := HDict [("name", VStr "customers"); ("keyAttributeNames", VRef 2)]]>
         (<[1 := HDict [("name", VStr "customers"); ("keyAttributeNames", VRef 2);
                        ("version", VInt 3)]]>
            (<[2 := HList [VStr "id"]]> ∅));
     calls := [] |}.

(** A body in which "name" is repeated and "version" is not a field of
    the dataset. *)
Definition body_customers : json :=
  JObj [("name", JStr "old"); ("keyAttributeNames", JArr [JStr "id"; JStr "source"]);
        ("version", JInt 3); ("name", JStr "customers")].

Definition customers_doc : list (string * json) :=
  [("name", JStr "customers"); ("keyAttributeNames", JArr [JStr "id"; JStr "source"]);
   ("version", JInt 3)].

Definition serving (t : json) : Session :=
  Demo.scripted [{| status_code := 200; body := Some t |}].

Lemma _from_json_typed_witness :
  fst (unified._from_json 5 Demo.dataset_url (VRef 0) Demo.world_ok)
    = Ok (@unified.Build_UnifiedDataset Demo.addressing Demo.dataset_url
            (VStr "customers") [VStr "id"] VNone).
Proof.
  apply (@_from_json_typed Demo.addressing 5 Demo.dataset_url (VRef 0) Demo.world_ok
           Demo.doc_ok "customers" ["id"] VNone).
  - exact represents_doc_ok.
  - vm_compute. lia.
  - reflexivity.
  - reflexivity.
  - reflexivity.
Defined.

Lemma _from_url_fetches_witness :
  exists w',
    unified._from_url 9 (serving body_customers) Demo.dataset_url Demo.idle
      = (Ok (@unified.Build_UnifiedDataset Demo.addressing Demo.dataset_url
               (VStr "customers") [VStr "id"; VStr "source"] VNone), w') /\
    calls w' = [GET (url.str Demo.dataset_url)] /\ store Demo.idle ⊆ store w'.
Proof.
  apply (@_from_url_fetches Demo.addressing 9 (serving body_customers) Demo.dataset_url
           Demo.idle {| status_code := 200; body := Some body_customers |}
           body_customers customers_doc "customers" ["id"; "source"] VNone).
  - reflexivity.
  - unfold success. simpl. lia.
  - reflexivity.
  - reflexivity.
  - reflexivity.
  - reflexivity.
  - reflexivity.
  - vm_compute. lia.
Defined.

Lemma _from_url_unparsed_errors_witness :
  unified._from_url 5 (Demo.scripted []) Demo.dataset_url Demo.idle
    = (Raise (ConnectionError "connection reset"),
       sent Demo.idle [GET (url.str Demo.dataset_url)]) /\
  unified._from_url 5 (Demo.scripted [{| status_code := 200; body := None |}])
    Demo.dataset_url Demo.idle
    = (Raise JSONDecodeError, sent Demo.idle [GET (url.str Demo.dataset_url)]).
Proof.
  split.
  - apply (proj1 (@_from_url_unparsed_errors Demo.addressing 5 (Demo.scripted [])
                    Demo.dataset_url Demo.idle)).
    reflexivity.
  - apply (proj2 (@_from_url_unparsed_errors Demo.addressing 5
                    (Demo.scripted [{| status_code := 200; body := None |}])
                    Demo.dataset_url Demo.idle)
             {| status_code := 200; body := None |}).
    + reflexivity.
    + unfold success. simpl. lia.
    + reflexivity.
Defined.

Lemma apply_changes_post_failure_witness :
  unified.apply_changes 4 (Demo.scripted []) Demo.customers Demo.idle
    = (Raise (ConnectionError "connection reset"),
       sent Demo.idle
         [POST (url.str Demo.dataset_url +:+ ":refresh")
            [("Content-Type", "application/json"); ("Accept", "application/json")]]).
Proof.
  apply (@apply_changes_post_failure Demo.addressing 4 (Demo.scripted []) Demo.customers
           Demo.idle "connection reset").
  reflexivity.
Defined.

Lemma _from_json_not_a_dict_witness :
  fst (unified._from_json 5 Demo.dataset_url (VRef 0) world_list) = Raise TypeError.
Proof.
  apply (@_from_json_not_a_dict Demo.addressing 5 Demo.dataset_url (VRef 0) world_list
           (JArr [JInt 1])).
  - solve_represents.
  - intros kts. discriminate.
  - vm_compute. lia.
Defined.

Lemma _from_json_other_keys_ignored_witness :
  exists d1 d2,
    fst (unified._from_json 6 Demo.dataset_url (VRef 0) world_two_dicts) = Ok d1 /\
    fst (unified._from_json 6 Demo.dataset_url (VRef 1) world_two_dicts) = Ok d2 /\
    unified.url d1 = unified.url d2.
Proof.
  destruct (@_from_json_other_keys_ignored Demo.addressing 6 Demo.dataset_url (VRef 0) (VRef 1)
              world_two_dicts
              [("name", JStr "customers"); ("keyAttributeNames", JArr [JStr "id"])]
              [("name", JStr "customers"); ("keyAttributeNames", JArr [JStr "id"]);
               ("version", JInt 3)]) as [_ Hok].
  - solve_represents.
  - solve_represents.
  - vm_compute. lia.
  - vm_compute. lia.
  - intros k Hk. repeat (apply elem_of_cons in Hk as [-> | Hk]; [reflexivity |]).
    by apply elem_of_nil in Hk.
  - assert (H1 : fst (unified._from_json 6 Demo.dataset_url (VRef 0) world_two_dicts)
                 = Ok (@unified.Build_UnifiedDataset Demo.addressing Demo.dataset_url
                         (VStr "customers") [VStr "id"] VNone))
      by (vm_compute; reflexivity).
    destruct (Hok _ H1) as (d2 & tn & tks & td & H2 & Hu & _).
    eexists _, d2. split; [exact H1 |]. split; [exact H2 | exact Hu].
Defined.

End AccessorSpec.

(** ** More on the accessors of a mastering project *)

Module MasteringMore.
Import mastering mastering_resources.

Lemma append_cancel_l p a b : p +:+ a = p +:+ b -> a = b.
Proof. induction p as [| c p IH]; simpl; [done |]. intros [= Heq]. by apply IH. Qed.

Lemma list_ascii_of_append a b :
  list_ascii_of_string (a +:+ b) = list_ascii_of_string a ++ list_ascii_of_string b.
Proof. induction a as [| c a IH]; simpl; [done |]. by rewrite IH. Qed.

Lemma append_cancel_r p q a : p +:+ a = q +:+ a -> p = q.
Proof.
  intros Heq. apply (f_equal list_ascii_of_string) in Heq.
  rewrite !list_ascii_of_append in Heq. apply app_inv_tail in Heq.
  rewrite <- (string_of_list_ascii_of_string p), <- (string_of_list_ascii_of_string q).
  by rewrite Heq.
Qed.

Section facts.
Context `{Resources}.

(** X9: when the project's unified dataset cannot be fetched, the three
    name-based accessors fail with that very error and look up no
    dataset; when the lookup by name fails, its error is returned after
    that single lookup. *)
Theorem accessors_propagate_errors (self : MasteringProject) log :
  (forall e, unified_dataset self = inl e ->
     published_clusters self log = (inl e, log) /\
     record_clusters_with_data self log = (inl e, log) /\
     published_clusters_with_data self log = (inl e, log)) /\
  (forall ud e, unified_dataset self = inr ud ->
     by_name (Dataset_name ud +:+ "_dedup_published_clusters") = inl e ->
     published_clusters self log
       = (inl e, log ++ [Dataset_name ud +:+ "_dedup_published_clusters"])).
Proof.
  split.
  - intros e He.
    unfold published_clusters, record_clusters_with_data, published_clusters_with_data,
      bind, lift. by rewrite He.
  - intros ud e Hud He.
    unfold published_clusters, bind, lift, datasets_by_name. by rewrite Hud, He.
Qed.

End facts.

Lemma accessors_propagate_errors_witness :
  let self := @Build_MasteringProject Demo.unify "projects/1" (inl "no unified dataset") in
  published_clusters self [] = (inl "no unified dataset", []) /\
  record_clusters_with_data self [] = (inl "no unified dataset", []) /\
  published_clusters_with_data self [] = (inl "no unified dataset", []).
Proof.
  apply (proj1 (@accessors_propagate_errors Demo.unify
                  (@Build_MasteringProject Demo.unify "projects/1" (inl "no unified dataset"))
                  [])).
  reflexivity.
Defined.

End MasteringMore.
